(** * Page image cache and preload scheduler of the PDF flip-book viewer

    A shallow embedding of the two components of the repository:

    - [Book1]: [src/PortfolioBook1.jsx], the react-flip-page variant with the
      priority / background preloader, the in-flight queue and the unmount
      cleanup;
    - [Book]: [src/PortfolioBook.jsx], the react-pageflip variant that splits
      every PDF page into a left and a right half.

    JavaScript numbers that hold page indices are modelled as [Z], the
    number typed into the go-to-page input, which need not be an integer,
    as a rational [Qc]; a [Map] is a [gmap], a [Set] a [gset].  An [async]
    function is cut at its [await]s: what runs up to the first [await] is a
    function on the component state, and every suspended continuation is a
    [task] of the state that a later transition resumes with the answer of
    the PDF library.  A state setter acts at once on the latest value of
    its state; the render that shows it, and runs the effects that depend
    on it, is a transition of its own. *)

From Stdlib Require Import ZArith List Lia String QArith Qcanon.
From stdpp Require Import base gmap sets list strings sorting.

Set Warnings "-clear-no-such-hyp".
Local Open Scope Z_scope.

(** ** Exceptions and state: the monad of the synchronous fragments *)

Inductive completion (A : Type) : Type :=
| Normal (a : A)
| Throw (err : string).
Arguments Normal {A} a.
Arguments Throw {A} err.

Definition M (S A : Type) : Type := S → S * completion A.

Definition throw {S A} (err : string) : M S A := λ s, (s, Throw err).

#[global] Instance M_ret {S} : MRet (M S) := λ A (a : A) s, (s, Normal a).
#[global] Instance M_bind {S} : MBind (M S) := λ A B (f : A → M S B) (m : M S A) s,
  match m s with
  | (s', Normal a) => f a s'
  | (s', Throw e) => (s', Throw e)
  end.

Definition modify {S} (f : S → S) : M S unit := λ s, (f s, Normal tt).

(** [try { body } catch (err) { handler err }] *)
Definition try_catch {S A} (body : M S A) (handler : string → M S A) : M S A :=
  λ s, match body s with
       | (s', Normal a) => (s', Normal a)
       | (s', Throw e) => handler e s'
       end.

(** [try { body } finally { fin }]: [fin] always runs; an exception of
    [fin] replaces the completion of [body]. *)
Definition try_finally {S A} (body : M S A) (fin : M S unit) : M S A :=
  λ s, match body s with
       | (s', c) => match fin s' with
                    | (s'', Normal _) => (s'', c)
                    | (s'', Throw e) => (s'', Throw e)
                    end
       end.

(** JavaScript truthiness of a string: only the empty string is falsy. *)
Definition truthy (s : string) : bool :=
  match s with EmptyString => false | String _ _ => true end.

(** [Math.max] and [Math.min] of two finite numbers. *)
Definition Math_max (a b : Qc) : Qc := if decide (a ≤ b)%Qc then b else a.
Definition Math_min (a b : Qc) : Qc := if decide (a ≤ b)%Qc then a else b.

(** [s.startsWith(p)] *)
Definition startsWith (s p : string) : bool := String.prefix p s.

(** [Array.prototype.sort(compareFn)]: the sort is stable, so for a consistent
    comparator its result is the stable insertion of every element. *)
Section ArraySort.
Variable compareFn : Z → Z → Z.

Fixpoint sort_insert (x : Z) (l : list Z) : list Z :=
  match l with
  | [] => [x]
  | y :: l' => if decide (compareFn x y ≤ 0) then x :: y :: l'
               else y :: sort_insert x l'
  end.

Definition Array_sort (l : list Z) : list Z := foldr sort_insert [] l.
End ArraySort.

(** [Array.prototype.slice(0, n)] *)
Definition slice0 (n : nat) (l : list Z) : list Z := take n l.

(** * PortfolioBook1.jsx *)
Module Book1.

Definition PRELOAD_RANGE : Z := 2.

(** The document handle of pdf.js, as far as the component reads it. *)
Record pdf := { numPages : Z }.

(** What a [useCallback] instance of [preloadPagesAround] captured from the
    render that created it: its dependencies [pageCount], [pages] and
    [loadingPages]. *)
Record closure := {
  c_pageCount : Z;
  c_pages : gmap Z string;
  c_loadingPages : gset Z
}.

(** Suspended continuations. *)
Inductive task :=
| Idle (idx : Z)
    (* [loadPage] handed to [requestIdleCallback] or [setTimeout(loadPage, 50)] *)
| Await (idx : Z) (called : bool) (k : option (list Z))
    (* [loadPage] of [idx] suspended at [await loadPageImage(...)];
       [called] tells whether [loadPageImage] got past [if (!pdf) return null];
       [k] is the rest of the foreground loop that awaits this [loadPage],
       [None] when it was started from the idle callback *)
| Timer (currentIndex : Z) (c : closure)
    (* [setTimeout(() => preloadPagesAround(newPage, false), 200)] *)
| InitOpen       (* [await pdfjsLib.getDocument(...).promise] *)
| InitDims       (* [await pdf.getPage(1)] *)
| InitPage (n : Z)  (* [await loadPageImage(pdf, n)] for n = 1, then n = 2 *)
| InitTimer.     (* [setTimeout(() => { if (!cancelled) ... }, 100)] *)

Inductive logEntry :=
| LogPageFailed (pdfPageNum : Z) (err : string)  (* "Failed to load page n:" *)
| LogLoadError (idx : Z) (err : string)          (* "Error loading page idx:" *)
| LogPdfError (err : string).                    (* "PDF loading error:" *)

Record state := mkState {
  pdfRef : option pdf;          (* pdfRef.current *)
  pageCount : Z;
  pages : gmap Z string;        (* the [pages] state, as the next render reads it *)
  shown : option (gmap Z string);
    (* [Some m] while a call of [setPages] waits for its render, [m] being
       the map of the last committed render; [None] when [pages] is that map *)
  loadingPages : gset Z;
  loadingQueue : gset Z;        (* loadingQueue.current *)
  loading : bool;
  error : option string;
  currentPage : Z;
  cancelled : bool;             (* [let cancelled] of the init effect *)
  mounted : bool;
  console : list logEntry;      (* console.error *)
  getPageCalls : list Z;        (* pdf.getPage(n) issued by loadPageImage *)
  revoked : gset string;        (* URL.revokeObjectURL *)
  tasks : list task
}.

Definition set_pdfRef v st := mkState v (pageCount st) (pages st) (shown st) (loadingPages st) (loadingQueue st) (loading st) (error st) (currentPage st) (cancelled st) (mounted st) (console st) (getPageCalls st) (revoked st) (tasks st).
Definition set_pageCount v st := mkState (pdfRef st) v (pages st) (shown st) (loadingPages st) (loadingQueue st) (loading st) (error st) (currentPage st) (cancelled st) (mounted st) (console st) (getPageCalls st) (revoked st) (tasks st).
Definition set_pages v st := mkState (pdfRef st) (pageCount st) v (shown st) (loadingPages st) (loadingQueue st) (loading st) (error st) (currentPage st) (cancelled st) (mounted st) (console st) (getPageCalls st) (revoked st) (tasks st).
Definition set_shown v st := mkState (pdfRef st) (pageCount st) (pages st) v (loadingPages st) (loadingQueue st) (loading st) (error st) (currentPage st) (cancelled st) (mounted st) (console st) (getPageCalls st) (revoked st) (tasks st).
Definition set_loadingPages v st := mkState (pdfRef st) (pageCount st) (pages st) (shown st) v (loadingQueue st) (loading st) (error st) (currentPage st) (cancelled st) (mounted st) (console st) (getPageCalls st) (revoked st) (tasks st).
Definition set_loadingQueue v st := mkState (pdfRef st) (pageCount st) (pages st) (shown st) (loadingPages st) v (loading st) (error st) (currentPage st) (cancelled st) (mounted st) (console st) (getPageCalls st) (revoked st) (tasks st).
Definition set_loading v st := mkState (pdfRef st) (pageCount st) (pages st) (shown st) (loadingPages st) (loadingQueue st) v (error st) (currentPage st) (cancelled st) (mounted st) (console st) (getPageCalls st) (revoked st) (tasks st).
Definition set_error v st := mkState (pdfRef st) (pageCount st) (pages st) (shown st) (loadingPages st) (loadingQueue st) (loading st) v (currentPage st) (cancelled st) (mounted st) (console st) (getPageCalls st) (revoked st) (tasks st).
Definition set_currentPage v st := mkState (pdfRef st) (pageCount st) (pages st) (shown st) (loadingPages st) (loadingQueue st) (loading st) (error st) v (cancelled st) (mounted st) (console st) (getPageCalls st) (revoked st) (tasks st).
Definition set_cancelled v st := mkState (pdfRef st) (pageCount st) (pages st) (shown st) (loadingPages st) (loadingQueue st) (loading st) (error st) (currentPage st) v (mounted st) (console st) (getPageCalls st) (revoked st) (tasks st).
Definition set_mounted v st := mkState (pdfRef st) (pageCount st) (pages st) (shown st) (loadingPages st) (loadingQueue st) (loading st) (error st) (currentPage st) (cancelled st) v (console st) (getPageCalls st) (revoked st) (tasks st).
Definition set_console v st := mkState (pdfRef st) (pageCount st) (pages st) (shown st) (loadingPages st) (loadingQueue st) (loading st) (error st) (currentPage st) (cancelled st) (mounted st) v (getPageCalls st) (revoked st) (tasks st).
Definition set_getPageCalls v st := mkState (pdfRef st) (pageCount st) (pages st) (shown st) (loadingPages st) (loadingQueue st) (loading st) (error st) (currentPage st) (cancelled st) (mounted st) (console st) v (revoked st) (tasks st).
Definition set_revoked v st := mkState (pdfRef st) (pageCount st) (pages st) (shown st) (loadingPages st) (loadingQueue st) (loading st) (error st) (currentPage st) (cancelled st) (mounted st) (console st) (getPageCalls st) v (tasks st).
Definition set_tasks v st := mkState (pdfRef st) (pageCount st) (pages st) (shown st) (loadingPages st) (loadingQueue st) (loading st) (error st) (currentPage st) (cancelled st) (mounted st) (console st) (getPageCalls st) (revoked st) v.

Definition push (t : task) (st : state) : state := set_tasks (tasks st ++ [t]) st.
Definition console_error (e : logEntry) (st : state) : state :=
  set_console (console st ++ [e]) st.

(** The blob URLs among the cached payloads:
    [pages.forEach(d => { if (d.startsWith('blob:')) URL.revokeObjectURL(d) })] *)
Definition blob_urls (p : gmap Z string) : gset string :=
  list_to_set (filter (λ d, startsWith d "blob:" = true) (snd <$> map_to_list p)).

(** The cleanup of the effect on [pages] (lines 250-259). *)
Definition revoke_cleanup (p : gmap Z string) (st : state) : state :=
  set_revoked (revoked st ∪ blob_urls p) st.

(** The [pages] of the last committed render: the map that the effect of
    lines 250-259 closes over. *)
Definition committed (st : state) : gmap Z string := default (pages st) (shown st).

(** [setPages(updater)].  React queues the update and renders later: the
    updater is applied to the latest map, while the committed render and
    its effect keep the map they have until the next commit.  Nothing in
    the source guards the call after the unmount, but React does not update
    the state of an unmounted component: the call then does nothing. *)
Definition setPages (f : gmap Z string → gmap Z string) (st : state) : state :=
  if mounted st
  then set_pages (f (pages st)) (set_shown (Some (committed st)) st)
  else st.

(** A render of the mounted component and its effects (a commit).  When
    [setPages] was called since the last commit, [pages] is a new [Map], so
    the dependency of the effect of lines 250-259 has changed, and the
    cleanup of the previous effect runs, on the map of the previous
    render.  A render for another reason leaves this effect alone. *)
Definition commit (st : state) : state :=
  match shown st with
  | Some m => set_shown None (revoke_cleanup m st)
  | None => st
  end.

(** [setLoadingPages(updater)].  The set is read by renders only, for the
    closures (line 80) and the slots (line 315). *)
Definition setLoadingPages (f : gset Z → gset Z) (st : state) : state :=
  set_loadingPages (f (loadingPages st)) st.

(** The instance of [preloadPagesAround] (and of [handlePageChange]) created
    by a render of [st], which reads the latest values of the states. *)
Definition closure_of (st : state) : closure :=
  {| c_pageCount := pageCount st; c_pages := pages st;
     c_loadingPages := loadingPages st |}.

(** ** loadPageImage (lines 31-60) *)

Inductive renderOutcome :=
| Rendered (imageData : string)
    (* the data URL, or the blob URL the returned promise resolves to *)
| RenderError (err : string)
    (* [getPage], [render] or the encoding threw inside the [try] block *)
| EncodeError (err : string).
    (* the promise of [convertToBlob], returned without [await], rejects *)

(** [loadPageImage] after [if (!pdf) return null].  The [try] block either
    throws or returns; what it returns is a string or, without
    [toDataURL], the promise [canvas.convertToBlob().then(...)], which is
    settled after the block was left, so its rejection is not caught here.
    The [catch] logs and returns [null]. *)
Definition loadPageImage (pdfPageNum : Z) (o : renderOutcome)
  : M state (option string) :=
  returned ← try_catch
    (match o with
     | Rendered imageData => mret (Some (Normal imageData))
     | RenderError err => throw err
     | EncodeError err => mret (Some (Throw err))
     end)
    (λ err, modify (console_error (LogPageFailed pdfPageNum err)) ;; mret None);
  match returned with
  | None => mret None
  | Some (Normal imageData) => mret (Some imageData)
  | Some (Throw err) => throw err
  end.

(** ** loadPage (lines 96-114), from the point where [loadPageImage] settles.
    [r] is the settled [loadPageImage]. *)
Definition loadPage (idx : Z) (r : M state (option string)) : M state unit :=
  try_finally
    (try_catch
       (imageData ← r;
        match imageData with
        | Some d => if truthy d then modify (setPages (λ prev, <[idx := d]> prev))
                    else mret tt
        | None => mret tt
        end)
       (λ err, modify (console_error (LogLoadError idx err))))
    (modify (setLoadingPages (λ prev, prev ∖ {[idx]})) ;;
     modify (λ st, set_loadingQueue (loadingQueue st ∖ {[idx]}) st)).

(** [loadPage()] up to its [await]: [loadPageImage(pdfRef.current, idx + 1)]
    either returns [null] at once (no document) or calls [pdf.getPage]. *)
Definition loadPage_call (idx : Z) (k : option (list Z)) (st : state) : state :=
  match pdfRef st with
  | Some _ =>
      push (Await idx true k) (set_getPageCalls (getPageCalls st ++ [idx + 1]) st)
  | None => push (Await idx false k) st
  end.

(** [loadingQueue.current.add(idx); setLoadingPages(prev => new Set(prev).add(idx))] *)
Definition mark (idx : Z) (st : state) : state :=
  setLoadingPages (λ prev, prev ∪ {[idx]})
    (set_loadingQueue (loadingQueue st ∪ {[idx]}) st).

(** ** preloadPagesAround (lines 63-130) *)

(** The comparator of line 87:
    [(a, b) => Math.abs(a - currentIndex) - Math.abs(b - currentIndex)] *)
Definition by_distance (currentIndex a b : Z) : Z :=
  Z.abs (a - currentIndex) - Z.abs (b - currentIndex).

(** Lines 67-87: the candidates, sorted. *)
Definition pagesToLoad (c : closure) (currentIndex : Z) (priority : bool) : list Z :=
  let collected :=
    if priority then
      currentIndex ::
        (if decide (currentIndex + 1 < c_pageCount c) then [currentIndex + 1] else [])
    else
      filter (λ idx, 0 ≤ idx ∧ idx < c_pageCount c
                     ∧ c_pages c !! idx = None ∧ idx ∉ c_loadingPages c)
             ((λ i, currentIndex + i) <$> seqZ (- PRELOAD_RANGE) (2 * PRELOAD_RANGE + 2))
  in
  Array_sort (by_distance currentIndex) collected.

(** Line 89: [pagesToLoad.slice(0, priority ? 2 : 4)] *)
Definition batch (c : closure) (currentIndex : Z) (priority : bool) : list Z :=
  slice0 (if priority then 2%nat else 4%nat) (pagesToLoad c currentIndex priority).

(** The loop of lines 89-127 with [priority] true: it stops at the first
    [await loadPage()], and goes on with [rest] when that one settles. *)
Fixpoint foreground_loop (l : list Z) (st : state) : state :=
  match l with
  | [] => st
  | idx :: rest =>
      if decide (idx ∈ loadingQueue st) then foreground_loop rest st
      else loadPage_call idx (Some rest) (mark idx st)
  end.

(** The same loop with [priority] false: every [loadPage] is deferred. *)
Fixpoint background_loop (l : list Z) (st : state) : state :=
  match l with
  | [] => st
  | idx :: rest =>
      if decide (idx ∈ loadingQueue st) then background_loop rest st
      else background_loop rest (push (Idle idx) (mark idx st))
  end.

Definition preloadPagesAround (c : closure) (currentIndex : Z) (priority : bool)
    (st : state) : state :=
  if decide (pdfRef st = None ∨ c_pageCount c = 0) then st
  else if priority then foreground_loop (batch c currentIndex true) st
  else background_loop (batch c currentIndex false) st.

(** Resuming [loadPage] at its [await], then the loop that awaited it. *)
Definition resume_loadPage (idx : Z) (called : bool) (k : option (list Z))
    (o : renderOutcome) (st : state) : state :=
  let r := if called then loadPageImage (idx + 1) o else mret None in
  match loadPage idx r st with
  | (st', Normal _) =>
      match k with
      | Some rest => foreground_loop rest st'
      | None => st'
      end
  | (st', Throw _) => st'
  end.

(** ** handlePageChange (lines 242-247) *)
Definition handlePageChange (c : closure) (newPage : Z) (st : state) : state :=
  let st1 := set_currentPage newPage st in
  let st2 := preloadPagesAround c newPage true st1 in
  push (Timer newPage c) st2.

(** ** The init effect (lines 133-193) *)

Inductive openOutcome :=
| Opened (d : pdf)
| LoadError (err : string).

Inductive pageOutcome :=
| PageReady
| PageError (err : string).

(** The state of the first render, with [init()] suspended at
    [await pdfjsLib.getDocument("/portfolio.pdf").promise]. *)
Definition mount : state :=
  {| pdfRef := None; pageCount := 0; pages := ∅; shown := None;
     loadingPages := ∅;
     loadingQueue := ∅; loading := true; error := None; currentPage := 0;
     cancelled := false; mounted := true; console := []; getPageCalls := [];
     revoked := ∅; tasks := [InitOpen] |}.

(** [err.message || "Failed to load PDF"] *)
Definition load_error_message (err : string) : string :=
  if truthy err then err else "Failed to load PDF"%string.

(** The [catch] of [init] (lines 180-186);
    [err] stands for [err.message], empty when there is none. *)
Definition init_catch (err : string) (st : state) : state :=
  if cancelled st then st
  else
    set_loading false
      (set_error (Some (load_error_message err))
         (console_error (LogPdfError err) st)).

(** Lines 138-146: [getDocument] settles. *)
Definition init_opened (o : openOutcome) (st : state) : state :=
  match o with
  | Opened d =>
      if cancelled st then st
      else push InitDims (set_pageCount (numPages d) (set_pdfRef (Some d) st))
  | LoadError err => init_catch err st
  end.

(** Lines 146-160: the first page gives the dimensions, then
    [loadPageImage(pdf, 1)] is called. *)
Definition init_dims (o : pageOutcome) (st : state) : state :=
  match o with
  | PageReady => push (InitPage 1) (set_getPageCalls (getPageCalls st ++ [1]) st)
  | PageError err => init_catch err st
  end.

(** Lines 160-178: the first and the second page image. *)
Definition init_page (n : Z) (o : renderOutcome) (st : state) : state :=
  match loadPageImage n o st with
  | (st1, Normal img) =>
      let st2 :=
        match img with
        | Some d => if negb (cancelled st1) && truthy d
                    then setPages (λ prev, <[n - 1 := d]> prev) st1 else st1
        | None => st1
        end in
      if decide (n = 1)
      then push (InitPage 2) (set_getPageCalls (getPageCalls st2 ++ [2]) st2)
      else push InitTimer (set_loading false st2)
  | (st1, Throw err) => init_catch err st1
  end.

(** [init] belongs to the effect that ran after the first render, so the
    [preloadPagesAround] it calls is the instance of that render. *)
Definition first_render : closure := closure_of mount.

Definition init_timer (st : state) : state :=
  if cancelled st then st else preloadPagesAround first_render 0 false st.

(** ** Unmount: the cleanups of the init effect (lines 190-192) and of the
    effect on [pages] (lines 250-259), the latter on the map of the last
    committed render. *)
Definition unmount (st : state) : state :=
  set_mounted false (revoke_cleanup (committed st) (set_cancelled true st)).

(** ** What is shown (lines 261-321) *)
Inductive view :=
| LoadingView
| ErrorView (msg : string)
| BookView.

Definition render (st : state) : view :=
  if loading st then LoadingView
  else match error st with
       | Some e => if truthy e then ErrorView e else BookView
       | None => BookView
       end.

(** ** The event loop *)
Inductive step : state → state → Prop :=
| step_navigate st newPage :
    mounted st = true → render st = BookView →
    step st (handlePageChange (closure_of st) newPage st)
| step_idle st t1 t2 idx :
    tasks st = t1 ++ Idle idx :: t2 →
    step st (loadPage_call idx None (set_tasks (t1 ++ t2) st))
| step_await st t1 t2 idx called k o :
    tasks st = t1 ++ Await idx called k :: t2 →
    step st (resume_loadPage idx called k o (set_tasks (t1 ++ t2) st))
| step_timer st t1 t2 cur c :
    tasks st = t1 ++ Timer cur c :: t2 →
    step st (preloadPagesAround c cur false (set_tasks (t1 ++ t2) st))
| step_init_open st t1 t2 o :
    tasks st = t1 ++ InitOpen :: t2 →
    step st (init_opened o (set_tasks (t1 ++ t2) st))
| step_init_dims st t1 t2 o :
    tasks st = t1 ++ InitDims :: t2 →
    step st (init_dims o (set_tasks (t1 ++ t2) st))
| step_init_page st t1 t2 n o :
    tasks st = t1 ++ InitPage n :: t2 →
    step st (init_page n o (set_tasks (t1 ++ t2) st))
| step_init_timer st t1 t2 :
    tasks st = t1 ++ InitTimer :: t2 →
    step st (init_timer (set_tasks (t1 ++ t2) st))
| step_unmount st :
    mounted st = true → step st (unmount st)
| step_render st :
    mounted st = true → step st (commit st).

Definition reachable (st : state) : Prop := rtc step mount st.

(** ** Scripts: the event loop driven by a list of events *)
Inductive event :=
| Navigate (newPage : Z)                  (* the flip widget reports a page *)
| RunIdle (idx : Z)                       (* the deferred [loadPage] of [idx] starts *)
| Settle (idx : Z) (o : renderOutcome)    (* the awaited render of [idx] settles *)
| Fire (currentIndex : Z)                 (* the 200 ms timer of a navigation fires *)
| Unmount
| Render.                                 (* React renders and commits *)

#[global] Instance view_eq_dec : EqDecision view.
Proof. solve_decision. Defined.

(** The first task accepted by [sel], with the tasks before and after it. *)
Fixpoint take_task {A} (sel : task → option A) (ts : list task)
  : option (list task * A * list task) :=
  match ts with
  | [] => None
  | t :: ts' =>
      match sel t with
      | Some a => Some ([], a, ts')
      | None =>
          match take_task sel ts' with
          | Some (before, a, after) => Some (t :: before, a, after)
          | None => None
          end
      end
  end.

Definition sel_idle (idx : Z) (t : task) : option unit :=
  match t with
  | Idle i => if decide (i = idx) then Some tt else None
  | _ => None
  end.

Definition sel_await (idx : Z) (t : task) : option (bool * option (list Z)) :=
  match t with
  | Await i called k => if decide (i = idx) then Some (called, k) else None
  | _ => None
  end.

Definition sel_timer (cur : Z) (t : task) : option closure :=
  match t with
  | Timer i c => if decide (i = cur) then Some c else None
  | _ => None
  end.

Definition perform (e : event) (st : state) : option state :=
  match e with
  | Navigate newPage =>
      if decide (mounted st = true ∧ render st = BookView)
      then Some (handlePageChange (closure_of st) newPage st) else None
  | RunIdle idx =>
      match take_task (sel_idle idx) (tasks st) with
      | Some (t1, _, t2) => Some (loadPage_call idx None (set_tasks (t1 ++ t2) st))
      | None => None
      end
  | Settle idx o =>
      match take_task (sel_await idx) (tasks st) with
      | Some (t1, (called, k), t2) =>
          Some (resume_loadPage idx called k o (set_tasks (t1 ++ t2) st))
      | None => None
      end
  | Fire cur =>
      match take_task (sel_timer cur) (tasks st) with
      | Some (t1, c, t2) => Some (preloadPagesAround c cur false (set_tasks (t1 ++ t2) st))
      | None => None
      end
  | Unmount => if decide (mounted st = true) then Some (unmount st) else None
  | Render => if decide (mounted st = true) then Some (commit st) else None
  end.

Fixpoint run (es : list event) (st : state) : option state :=
  match es with
  | [] => Some st
  | e :: es' =>
      match perform e st with
      | Some st' => run es' st'
      | None => None
      end
  end.

(** The mounted and revoked parts of the state are the same. *)
Definition settled (st st' : state) : Prop :=
  mounted st' = mounted st ∧ revoked st' = revoked st.

(** The cache is the same, the latest map as well as the committed one. *)
Definition same_cache (st st' : state) : Prop :=
  pages st' = pages st ∧ shown st' = shown st.

(** ** Vocabulary of the statements *)

(** [a] stands before [b] when the indices are ordered by distance from
    [currentIndex], the lower index first among equally distant ones. *)
Definition closer (currentIndex a b : Z) : Prop :=
  Z.abs (a - currentIndex) < Z.abs (b - currentIndex) ∨
  (Z.abs (a - currentIndex) = Z.abs (b - currentIndex) ∧ a < b).

(** The tasks that load index [i], and the [getPage] calls made for it. *)
Definition loads (i : Z) (t : task) : Prop :=
  match t with
  | Idle idx | Await idx _ _ => idx = i
  | _ => False
  end.

#[global] Instance loads_dec i t : Decision (loads i t).
Proof. destruct t; simpl; apply _. Defined.

Definition inflight (i : Z) (st : state) : list task := filter (loads i) (tasks st).

Definition render_calls (i : Z) (st : state) : list Z :=
  filter (λ n, n = i + 1) (getPageCalls st).

(** The indices whose load is deferred or awaited, in task order. *)
Definition load_index (t : task) : option Z :=
  match t with
  | Idle idx | Await idx _ _ => Some idx
  | _ => None
  end.

Definition load_indices (ts : list task) : list Z := omap load_index ts.

(** At most one load per index is deferred or awaited, and the in-flight
    queue and the loading set both hold exactly the indices of these loads. *)
Definition one_load_per_index (st : state) : Prop :=
  NoDup (load_indices (tasks st)) ∧
  (∀ i, i ∈ loadingQueue st ↔ i ∈ load_indices (tasks st)) ∧
  loadingPages st = loadingQueue st.

(** Nothing was started for [i] between [st] and [st']. *)
Definition no_request_for (i : Z) (st st' : state) : Prop :=
  inflight i st' = inflight i st ∧ render_calls i st' = render_calls i st.

(** The console entry that a failing render of [idx] leaves. *)
Definition failure_log (idx : Z) (o : renderOutcome) : option logEntry :=
  match o with
  | Rendered _ => None
  | RenderError err => Some (LogPageFailed (idx + 1) err)
  | EncodeError err => Some (LogLoadError idx err)
  end.

(** A foreground loop is suspended at a [loadPage]; a background pass is
    waiting for its timer. *)
Definition foreground_pending (st : state) : Prop :=
  ∃ idx called rest, Await idx called (Some rest) ∈ tasks st.

Definition background_scheduled (st : state) : Prop :=
  ∃ cur c, Timer cur c ∈ tasks st.

Definition is_Idle (t : task) : Prop :=
  match t with Idle _ => True | _ => False end.

#[global] Instance is_Idle_dec t : Decision (is_Idle t).
Proof. destruct t; simpl; apply _. Defined.

(** [st'] is [st] after a stage of the load of [i] itself: the start of its
    deferred [loadPage], or the settling of its awaited render. *)
Definition own_stage (i : Z) (st st' : state) : Prop :=
  (∃ t1 t2, tasks st = t1 ++ Idle i :: t2 ∧
            st' = loadPage_call i None (set_tasks (t1 ++ t2) st)) ∨
  (∃ t1 t2 called k o, tasks st = t1 ++ Await i called k :: t2 ∧
            st' = resume_loadPage i called k o (set_tasks (t1 ++ t2) st)).

(** The suspended [init], before its page images have settled. *)
Definition init_task (t : task) : Prop :=
  match t with InitOpen | InitDims | InitPage _ => True | _ => False end.

(** While [init] is suspended before its last page image, it is the only
    task, nothing is in flight and the loading view is shown. *)
Definition init_alone (st : state) : Prop :=
  (∃ t, t ∈ tasks st ∧ init_task t) →
  (∃ t, tasks st = [t]) ∧ loadingQueue st = ∅ ∧ loading st = true.

(** After a failed open nothing is left to run. *)
Definition failed_to_open (msg : string) (st : state) : Prop :=
  pdfRef st = None ∧ pageCount st = 0 ∧ tasks st = [] ∧ getPageCalls st = [] ∧
  pages st = ∅ ∧ loadingQueue st = ∅ ∧ loadingPages st = ∅ ∧
  loading st = false ∧ error st = Some msg.

(** A document of ten pages, and the closure of a render that has it and
    nothing cached. *)
Definition ten_pages : closure :=
  {| c_pageCount := 10; c_pages := ∅; c_loadingPages := ∅ |}.

(** A cache that holds page 0 only, and one that holds page 5 only. *)
Definition cached_0 : gmap Z string := {[ 0 := "data:old"%string ]}.
Definition cached_5 : gmap Z string := {[ 5 := "data:,"%string ]}.

(** The start of a session on a ten-page document: the document opens, the
    first two pages arrive as blob URLs, the book is rendered. *)
Definition doc10 : pdf := {| numPages := 10 |}.
Definition run_opened : state := init_opened (Opened doc10) (set_tasks [] mount).
Definition run_dims : state := init_dims PageReady (set_tasks [] run_opened).
Definition run_first : state := init_page 1 (Rendered "blob:p0") (set_tasks [] run_dims).
Definition run_second : state := init_page 2 (Rendered "blob:p1") (set_tasks [] run_first).
Definition run_shown : state := commit run_second.

(** A run that unmounts the viewer while a page is being rendered: the user
    turns to index 2, the component is unmounted, and then the render of
    index 2 completes. *)
Definition run_turned : state := handlePageChange (closure_of run_shown) 2 run_shown.
Definition run_unmounted : state := unmount run_turned.
Definition run_late : state :=
  resume_loadPage 2 true (Some [3]) (Rendered "blob:p2")
    (set_tasks [InitTimer; Timer 2 (closure_of run_shown)] run_unmounted).

(** The same turn with the viewer left mounted: the renders of the indices
    2 and 3 complete, and then the timer of the turn fires. *)
Definition run_spread_2 : state :=
  resume_loadPage 2 true (Some [3]) (Rendered "blob:p2")
    (set_tasks [InitTimer; Timer 2 (closure_of run_shown)] run_turned).
Definition run_spread_3 : state :=
  resume_loadPage 3 true (Some []) (Rendered "blob:p3")
    (set_tasks [InitTimer; Timer 2 (closure_of run_shown)] run_spread_2).
Definition run_background : state :=
  preloadPagesAround (closure_of run_shown) 2 false (set_tasks [InitTimer] run_spread_3).

(** A turn back to index 0, which is cached, whose render fails. *)
Definition run_again : state := handlePageChange (closure_of run_shown) 0 run_shown.
Definition run_again_failed : state :=
  resume_loadPage 0 true (Some [1]) (RenderError "corrupt")
    (set_tasks [InitTimer; Timer 0 (closure_of run_shown)] run_again).

(** The viewer showing a ten-page document with the given cache and nothing
    in flight. *)
Definition showing (p : gmap Z string) : state :=
  {| pdfRef := Some {| numPages := 10 |}; pageCount := 10; pages := p;
     shown := None;
     loadingPages := ∅; loadingQueue := ∅; loading := false; error := None;
     currentPage := 0; cancelled := false; mounted := true; console := [];
     getPageCalls := []; revoked := ∅; tasks := [] |}.

End Book1.

(** * PortfolioBook.jsx *)
Module Book.

Definition SPLIT_PAGES : bool := true.

(** The document handle: the page count, and for a page number what
    [getPage] and [render] produce, the canvas size
    [(Math.ceil(viewport.width), Math.ceil(viewport.height))], or the
    exception they throw.  The file is not changed during a session, so the
    answer depends on the page number alone. *)
Record pdf := {
  numPages : Z;
  page_canvas : Z → completion (Z * Z)
}.

(** A data URL is identified by what was drawn into the canvas it encodes:
    the region of width [sw] and height [sh] at offset [(sx, 0)] of the
    rendering of PDF page [of_page]. *)
Record image := {
  of_page : Z;
  sx : Z;
  sw : Z;
  sh : Z
}.

#[global] Instance image_eq_dec : EqDecision image.
Proof. solve_decision. Defined.

Record closure := {
  c_pageCount : Z;
  c_pages : gmap Z image
}.

Record state := mkState {
  pdfRef : option pdf;       (* pdfRef.current *)
  pageCount : Z;
  pages : gmap Z image;      (* the object {pageIndex: imageDataURL} *)
  loading : bool;
  error : option string;
  bookRef : bool;            (* bookRef.current is set *)
  console : list string
}.

Definition set_pdfRef v st := mkState v (pageCount st) (pages st) (loading st) (error st) (bookRef st) (console st).
Definition set_pageCount v st := mkState (pdfRef st) v (pages st) (loading st) (error st) (bookRef st) (console st).
Definition set_pages v st := mkState (pdfRef st) (pageCount st) v (loading st) (error st) (bookRef st) (console st).
Definition set_loading v st := mkState (pdfRef st) (pageCount st) (pages st) v (error st) (bookRef st) (console st).
Definition set_error v st := mkState (pdfRef st) (pageCount st) (pages st) (loading st) v (bookRef st) (console st).
Definition set_console v st := mkState (pdfRef st) (pageCount st) (pages st) (loading st) (error st) (bookRef st) v.

Definition closure_of (st : state) : closure :=
  {| c_pageCount := pageCount st; c_pages := pages st |}.

(** ** loadPageImage (lines 21-48) *)
Definition loadPageImage (d : option pdf) (pdfPageNum : Z) : M state (list image) :=
  match d with
  | None => throw "TypeError"
  | Some d =>
      match page_canvas d pdfPageNum with
      | Throw e => throw e
      | Normal (width, height) =>
          if SPLIT_PAGES then
            let halfW := width / 2 in
            let rightW := width - halfW in
            mret [ {| of_page := pdfPageNum; sx := 0; sw := halfW; sh := height |};
                   {| of_page := pdfPageNum; sx := halfW; sw := rightW; sh := height |} ]
          else
            mret [ {| of_page := pdfPageNum; sx := 0; sw := width; sh := height |} ]
      end
  end.

(** [arr[i]] for an index computed with [%]; out of the array it is
    [undefined]. *)
Definition at_index (arr : list image) (i : Z) : option image :=
  if decide (0 ≤ i) then arr !! Z.to_nat i else None.

(** ** preloadPagesAround (lines 51-65).  The [await]s of the loop are
    resolved in order.  A slot whose value is [undefined] reads like an absent
    one everywhere ([!pages[idx]], [pages[i] ? ... : ...]), so storing
    [undefined] is modelled by leaving the slot absent. *)
Definition preload_one (c : closure) (idx : Z) : M state unit :=
  if decide (idx < 0 ∨ c_pageCount c ≤ idx) then mret tt
  else
    match c_pages c !! idx with
    | Some _ => mret tt
    | None =>
        let pdfPageNum := if SPLIT_PAGES then idx / 2 + 1 else idx + 1 in
        arr ← (λ st, loadPageImage (pdfRef st) pdfPageNum st);
        let img := if SPLIT_PAGES then at_index arr (Z.rem idx 2) else at_index arr 0 in
        modify (λ st, set_pages (match img with
                                 | Some u => <[idx := u]> (pages st)
                                 | None => delete idx (pages st)
                                 end) st)
    end.

Definition preloadPagesAround (c : closure) (currentIndex : Z) : M state unit :=
  λ st,
    match pdfRef st with
    | None => (st, Normal tt)
    | Some _ =>
        (preload_one c currentIndex ;;
         preload_one c (currentIndex + 1) ;;
         preload_one c (currentIndex + 2)) st
    end.

(** ** init (lines 70-89), run by the effect of the render that made [c] *)
Inductive openOutcome :=
| Opened (d : pdf)
| LoadError (err : string).

Definition init (c : closure) (cancelled : bool) (o : openOutcome) : state → state :=
  λ st,
    let body : M state unit :=
      d ← (match o with Opened d => mret d | LoadError err => throw err end);
      modify (set_pdfRef (Some d)) ;;
      let count := if SPLIT_PAGES then numPages d * 2 else numPages d in
      modify (set_pageCount count) ;;
      preloadPagesAround c 0 ;;
      modify (set_loading false) in
    fst (try_catch body
           (λ err,
              modify (λ st, set_console (console st ++ [err]) st) ;;
              if cancelled then mret tt
              else modify (λ st, set_loading false
                                   (set_error (Some (if truthy err then err
                                                     else "Failed to load PDF"%string)) st)))
           st).

(** The slots handed to the flip book (line 150):
    [Array.from({ length: pageCount }).map((_, i) => ...)] *)
Definition slots (st : state) : list Z := seqZ 0 (pageCount st).

(** ** goToPage (lines 106-110): the number handed to [pageFlip().flip], if
    any.  [pageNumber] is [Number(e.target.value)] of the numeric input
    (line 126): a number that need not be an integer (an empty or invalid
    input gives 0).  It is taken as a rational and the subtraction as
    exact; nothing rounds the result.  (A value too large for a double is
    clamped like any number beyond the last page.) *)
Definition goToPage (pageNumber : Qc) (st : state) : option Qc :=
  if bookRef st then
    let targetIndex :=
      Math_max 0%Qc (Math_min (Qc_of_Z (pageCount st - 1)) (pageNumber - 1)%Qc) in
    Some targetIndex
  else None.

(** ** Vocabulary of the statements *)

(** The state of the first render. *)
Definition mount : state :=
  {| pdfRef := None; pageCount := 0; pages := ∅; loading := true;
     error := None; bookRef := false; console := [] |}.

(** The image that belongs in slot [idx]: PDF page [idx / 2 + 1], its left
    half for an even [idx], its right half for an odd one. *)
Definition left_half (n width height : Z) : image :=
  {| of_page := n; sx := 0; sw := width / 2; sh := height |}.

Definition right_half (n width height : Z) : image :=
  {| of_page := n; sx := width / 2; sw := width - width / 2; sh := height |}.

Definition half_of (d : pdf) (idx : Z) : option image :=
  match page_canvas d (idx / 2 + 1) with
  | Normal (width, height) =>
      Some (if Z.even idx then left_half (idx / 2 + 1) width height
            else right_half (idx / 2 + 1) width height)
  | Throw _ => None
  end.

(** Every cached slot holds the image that belongs in it. *)
Definition split_mapped (d : pdf) (p : gmap Z image) : Prop :=
  ∀ idx img, p !! idx = Some img → 0 ≤ idx ∧ half_of d idx = Some img.

(** A mounted flip book of six slots. *)
Definition six_slots : state :=
  {| pdfRef := None; pageCount := 6; pages := ∅; loading := false;
     error := None; bookRef := true; console := [] |}.

(** A mounted flip book without slots. *)
Definition empty_book : state :=
  {| pdfRef := None; pageCount := 0; pages := ∅; loading := false;
     error := None; bookRef := true; console := [] |}.

(** The page number 2.5 and the target 1.5. *)
Definition two_and_a_half : Qc := Q2Qc (5 # 2).
Definition one_and_a_half : Qc := Q2Qc (3 # 2).

(** A document of three pages, each rendered 1201 wide and 800 high. *)
Definition doc3 : pdf :=
  {| numPages := 3; page_canvas := λ _, Normal (1201, 800) |}.

End Book.

(** * PortfolioBook1.jsx: what is drawn, the keyboard, a whole [init] *)
Module Book1_UI.
Import Book1.

(** ** PageComponent (lines 325-391) *)
Inductive slotContent :=
| Image (src : string) (boxShadow : bool) (borderRight : bool)
| Spinner (label : Z)        (* "Loading page n..." with the spinner *)
| Placeholder (label : Z).   (* "Page n" *)

Definition PageComponent (pageIndex pageCount : Z) (imageData : option string)
    (isLoading : bool) : slotContent :=
  let isCover := bool_decide (pageIndex = 0) in
  let isLast := bool_decide (pageIndex = pageCount - 1) in
  let without_image :=
    if isLoading then Spinner (pageIndex + 1) else Placeholder (pageIndex + 1) in
  match imageData with
  | Some d =>
      if truthy d then
        Image d (isCover || isLast)
              (negb isCover && negb isLast && bool_decide (Z.rem pageIndex 2 = 0))
      else without_image
  | None => without_image
  end.

(** Lines 309-317: the slot of index [i], fed from the state. *)
Definition slot (st : state) (i : Z) : slotContent :=
  PageComponent i (pageCount st) (pages st !! i) (bool_decide (i ∈ loadingPages st)).

(** ** The keyboard effect (lines 196-214) *)
Inductive flip := gotoNextPage | gotoPreviousPage.

Record keys := mkKeys {
  flipPageRef : bool;           (* flipPageRef.current is set *)
  keyTimeout : option string;   (* the key of the pending 50 ms timer *)
  flips : list flip             (* the calls made on the flip widget *)
}.

(** [handleKey]: without the widget nothing happens, not even the
    [clearTimeout]; otherwise the pending timer is replaced. *)
Definition handleKey (key : string) (ks : keys) : keys :=
  if flipPageRef ks then mkKeys (flipPageRef ks) (Some key) (flips ks) else ks.

(** The timer callback.  The widget is dereferenced only for an arrow key;
    if the ref is empty by then the call throws and nothing is flipped. *)
Definition key_timer (ks : keys) : keys :=
  match keyTimeout ks with
  | None => ks
  | Some key =>
      let next := if decide (key = "ArrowRight"%string) then [gotoNextPage] else [] in
      let prev := if decide (key = "ArrowLeft"%string) then [gotoPreviousPage] else [] in
      if flipPageRef ks
      then mkKeys (flipPageRef ks) None (flips ks ++ next ++ prev)
      else mkKeys (flipPageRef ks) None (flips ks)
  end.

(** The cleanup: [removeEventListener], [clearTimeout]. *)
Definition key_cleanup (ks : keys) : keys := mkKeys (flipPageRef ks) None (flips ks).

(** Keys pressed one after the other with no timer firing in between. *)
Definition press (burst : list string) (ks : keys) : keys :=
  foldl (λ acc key, handleKey key acc) ks burst.

Definition flip_of (key : string) : list flip :=
  if decide (key = "ArrowRight"%string) then [gotoNextPage]
  else if decide (key = "ArrowLeft"%string) then [gotoPreviousPage]
  else [].

(** ** A whole [init]: the document opens, the first page gives the
    dimensions, the two page images settle with [o1] and [o2], and the
    100 ms timer fires. *)
Definition init_pages (d : pdf) (o1 o2 : renderOutcome) : state :=
  init_page 2 o2
    (set_tasks []
       (init_page 1 o1
          (set_tasks []
             (init_dims PageReady
                (set_tasks [] (init_opened (Opened d) (set_tasks [] mount))))))).

Definition init_run (d : pdf) (o1 o2 : renderOutcome) : state :=
  init_timer (set_tasks [] (init_pages d o1 o2)).

(** What a settled page image leaves in the cache. *)
Definition stored (o : renderOutcome) : option string :=
  match o with
  | Rendered d => if truthy d then Some d else None
  | _ => None
  end.

Definition caught (o : renderOutcome) : Prop :=
  match o with EncodeError _ => False | _ => True end.

(** The cache after a transition: as before, or with one more non-empty
    payload stored. *)
Definition cache_effect (st st' : state) : Prop :=
  pages st' = pages st ∨
  ∃ idx d, truthy d = true ∧ pages st' = <[idx := d]> (pages st).

(** The revoked URLs after a transition: as before, or with the blob URLs of
    the cache that was committed before. *)
Definition revoke_effect (st st' : state) : Prop :=
  revoked st' = revoked st ∨ revoked st' = revoked st ∪ blob_urls (committed st).

(** The committed cache after a transition: as before, or brought up to
    date by a commit. *)
Definition commit_effect (st st' : state) : Prop :=
  committed st' = committed st ∨ committed st' = pages st'.

(** Every index of the committed cache is still cached. *)
Definition committed_cached (st : state) : Prop :=
  ∀ i, is_Some (committed st !! i) → is_Some (pages st !! i).

(** The parts of the state that [init] writes for the viewer. *)
Definition same_display (st st' : state) : Prop :=
  pages st' = pages st ∧ error st' = error st ∧
  pdfRef st' = pdfRef st ∧ pageCount st' = pageCount st.

End Book1_UI.

(** * PortfolioBook.jsx: the keyboard *)
Module Book_UI.

Inductive flip := flipNext | flipPrev.

(** [handleKey] (lines 96-100): the calls it adds to those made so far. *)
Definition handleKey (bookRef : bool) (key : string) (flips : list flip) : list flip :=
  if bookRef then
    flips
      ++ (if decide (key = "ArrowRight"%string) then [flipNext] else [])
      ++ (if decide (key = "ArrowLeft"%string) then [flipPrev] else [])
  else flips.

Definition press (bookRef : bool) (burst : list string) (flips : list flip) : list flip :=
  foldl (λ acc key, handleKey bookRef key acc) flips burst.

Definition is_arrow (key : string) : Prop :=
  key = "ArrowRight"%string ∨ key = "ArrowLeft"%string.

#[global] Instance is_arrow_dec key : Decision (is_arrow key).
Proof. unfold is_arrow. apply _. Defined.

(** Between [st] and [st'] only the cache was written, and only in slots
    among [among] that lie in [0, pageCount) of the closure and are not
    cached in it. *)
Definition only_touches (c : Book.closure) (among : Z → Prop) (st st' : Book.state) : Prop :=
  Book.pdfRef st' = Book.pdfRef st ∧ Book.pageCount st' = Book.pageCount st ∧
  Book.loading st' = Book.loading st ∧ Book.error st' = Book.error st ∧
  Book.bookRef st' = Book.bookRef st ∧ Book.console st' = Book.console st ∧
  (∀ idx, Book.pages st' !! idx ≠ Book.pages st !! idx →
     among idx ∧ 0 ≤ idx < Book.c_pageCount c ∧ Book.c_pages c !! idx = None).

End Book_UI.

(** * Properties of PortfolioBook1.jsx *)
Module Book1_Spec.
Import Book1.

(** ** The sort of line 87 *)

Lemma sort_insert_elem_of cmp x l y :
  y ∈ sort_insert cmp x l ↔ y = x ∨ y ∈ l.
Proof.
  induction l as [|z l IH]; simpl.
  - rewrite list_elem_of_singleton, elem_of_nil. naive_solver.
  - case_decide; rewrite !elem_of_cons; [done|].
    rewrite IH. naive_solver.
Qed.

Lemma Array_sort_elem_of cmp l y : y ∈ Array_sort cmp l ↔ y ∈ l.
Proof.
  induction l as [|x l IH]; simpl; [done|].
  rewrite sort_insert_elem_of, elem_of_cons, IH. done.
Qed.

Lemma sort_insert_perm cmp x l : sort_insert cmp x l ≡ₚ x :: l.
Proof.
  induction l as [|z l IH]; simpl; [done|].
  case_decide; [done|]. rewrite IH. apply Permutation_swap.
Qed.

(** The sort rearranges, it neither drops nor repeats an index. *)
Lemma Array_sort_perm cmp l : Array_sort cmp l ≡ₚ l.
Proof.
  induction l as [|x l IH]; simpl; [done|].
  by rewrite sort_insert_perm, IH.
Qed.

Lemma Array_sort_length cmp l : length (Array_sort cmp l) = length l.
Proof. by rewrite Array_sort_perm. Qed.

(** Inserting an index that is lower than all those already ordered keeps the
    order by distance with the lower index first on ties: this is where the
    stability of the sort is used. *)
Lemma sort_insert_closer cur x s :
  StronglySorted (closer cur) s →
  Forall (λ y, x < y) s →
  StronglySorted (closer cur) (sort_insert (by_distance cur) x s).
Proof.
  induction s as [|y s IH]; intros Hs Hx; simpl.
  - repeat constructor.
  - apply StronglySorted_cons in Hs as [Hy Hs].
    apply Forall_cons in Hx as [Hxy Hx].
    unfold by_distance at 1. case_decide as Hc.
    + apply StronglySorted_cons. split; [|by apply StronglySorted_cons].
      apply Forall_cons. split.
      * unfold closer. lia.
      * rewrite Forall_forall in Hy, Hx |- *.
        intros z Hz. specialize (Hy z Hz). specialize (Hx z Hz).
        unfold closer in *. lia.
    + apply StronglySorted_cons. split; [|by apply IH].
      apply Forall_forall. intros z Hz.
      apply sort_insert_elem_of in Hz as [->|Hz].
      * unfold closer. lia.
      * by eapply Forall_forall in Hy.
Qed.

Lemma Array_sort_ascending cur l :
  StronglySorted Z.lt l →
  StronglySorted (closer cur) (Array_sort (by_distance cur) l).
Proof.
  induction l as [|x l IH]; intros Hl; simpl; [constructor|].
  apply StronglySorted_cons in Hl as [Hx Hl].
  apply sort_insert_closer; [by apply IH|].
  apply Forall_forall. intros y Hy. apply Array_sort_elem_of in Hy.
  by eapply Forall_forall in Hx.
Qed.

Lemma StronglySorted_filter_lt (P : Z → Prop) `{∀ x, Decision (P x)} l :
  StronglySorted Z.lt l → StronglySorted Z.lt (filter P l).
Proof.
  induction 1 as [|x l Hl IH Hx]; [constructor|].
  rewrite filter_cons. case_decide; [|done].
  constructor; [done|].
  apply Forall_forall. intros y Hy. apply list_elem_of_filter in Hy as [_ Hy].
  by eapply Forall_forall in Hx.
Qed.

Lemma window_ascending cur :
  StronglySorted Z.lt ((λ i, cur + i) <$> seqZ (- PRELOAD_RANGE) (2 * PRELOAD_RANGE + 2)).
Proof.
  change (seqZ (- PRELOAD_RANGE) (2 * PRELOAD_RANGE + 2)) with [-2; -1; 0; 1; 2; 3].
  simpl. repeat (constructor; [|repeat constructor; lia]). constructor.
Qed.

Lemma closer_irrefl cur a : ¬ closer cur a a.
Proof. unfold closer. lia. Qed.

Lemma take_StronglySorted {A} (R : relation A) n (l : list A) :
  StronglySorted R l → StronglySorted R (take n l).
Proof.
  intros Hl. rewrite <- (take_drop n l) in Hl.
  by apply StronglySorted_app_1_l in Hl.
Qed.

(** ** Selection *)

Lemma background_candidates (c : closure) (currentIndex idx : Z) :
  idx ∈ pagesToLoad c currentIndex false ↔
    currentIndex - 2 ≤ idx ≤ currentIndex + 3 ∧
    0 ≤ idx < c_pageCount c ∧
    c_pages c !! idx = None ∧ idx ∉ c_loadingPages c.
Proof.
  unfold pagesToLoad.
  rewrite Array_sort_elem_of, list_elem_of_filter, list_elem_of_fmap.
  split.
  - intros [(? & ? & ? & ?) (i & -> & Hi)].
    apply elem_of_seqZ in Hi. unfold PRELOAD_RANGE in Hi. repeat split; auto; lia.
  - intros (? & ? & ? & ?). split; [repeat split; auto; lia|].
    exists (idx - currentIndex). split; [lia|].
    apply elem_of_seqZ. unfold PRELOAD_RANGE. lia.
Qed.

Lemma background_sorted (c : closure) (currentIndex : Z) :
  StronglySorted (closer currentIndex) (pagesToLoad c currentIndex false).
Proof.
  unfold pagesToLoad. apply Array_sort_ascending.
  apply StronglySorted_filter_lt, window_ascending.
Qed.

(** The example of the specification: at index 5 with only index 5 cached,
    the candidates 3, 4, 6, 7, 8 come out as 4, 6, 3, 7. *)
Example background_selection_at_5 :
  batch {| c_pageCount := 10; c_pages := {[ 5 := "data:,"%string ]};
           c_loadingPages := ∅ |} 5 false = [4; 6; 3; 7].
Proof. vm_compute. reflexivity. Qed.

(** What the foreground branch collects, for every index and page count. *)
Lemma foreground_batch (c : closure) (currentIndex : Z) :
  batch c currentIndex true =
  currentIndex ::
    (if decide (currentIndex + 1 < c_pageCount c) then [currentIndex + 1] else []).
Proof.
  unfold batch, pagesToLoad. case_decide; simpl; [|done].
  unfold by_distance at 1. case_decide; [done|lia].
Qed.

(** C3, as the code has it: for a current index inside [0, pageCount) the
    foreground selection is the current index followed by the next one when
    that is still below [pageCount]; these are exactly the members of
    {currentIndex, currentIndex + 1} that lie in [0, pageCount), in that
    order, at most two, all within bounds. *)
Theorem C3_foreground_selection_in_range (c : closure) (currentIndex : Z) :
  0 < c_pageCount c →
  0 ≤ currentIndex < c_pageCount c →
  let sel := batch c currentIndex true in
  sel = currentIndex ::
          (if decide (currentIndex + 1 < c_pageCount c) then [currentIndex + 1] else []) ∧
  (∀ idx, idx ∈ sel ↔
     (idx = currentIndex ∨ idx = currentIndex + 1) ∧ 0 ≤ idx < c_pageCount c) ∧
  StronglySorted Z.lt sel ∧
  (length sel ≤ 2)%nat.
Proof.
  intros Hpc Hcur sel. unfold sel. rewrite foreground_batch.
  split; [done|]. case_decide.
  - split; [|split; [repeat constructor; lia|simpl; lia]].
    intros idx. rewrite !elem_of_cons, elem_of_nil. lia.
  - split; [|split; [repeat constructor|simpl; lia]].
    intros idx. rewrite !elem_of_cons, elem_of_nil. lia.
Qed.

Lemma C3_foreground_selection_in_range_witness :
  batch ten_pages 9 true = [9] ∧ batch ten_pages 3 true = [3; 4].
Proof.
  split.
  - apply (C3_foreground_selection_in_range ten_pages 9); simpl; lia.
  - apply (C3_foreground_selection_in_range ten_pages 3); simpl; lia.
Defined.

(** C3 as stated fails: the current index is pushed without a bounds test
    (line 72), so with [pageCount = 10] and [currentIndex = 10] the selection
    is [[10]], an index outside [0, 10). *)
Lemma C3_current_index_not_bounds_filtered :
  batch ten_pages 10 true = [10] ∧
  ¬ (∀ idx, idx ∈ batch ten_pages 10 true ↔
            (idx = 10 ∨ idx = 10 + 1) ∧ 0 ≤ idx < c_pageCount ten_pages).
Proof.
  split; [reflexivity|].
  intros Hclaim. destruct (Hclaim 10) as [Hin _].
  assert (H10 : 10 ∈ batch ten_pages 10 true) by (rewrite foreground_batch; simpl; left).
  apply Hin in H10. simpl in H10. lia.
Qed.

(** ** The loop of lines 89-127 *)

Lemma inflight_push i t st :
  inflight i (push t st) = inflight i st ++ (if decide (loads i t) then [t] else []).
Proof.
  unfold inflight, push. simpl. by rewrite filter_app.
Qed.

Lemma loadPage_call_other i idx k st :
  idx ≠ i → no_request_for i st (loadPage_call idx k st).
Proof.
  intros Hne. unfold no_request_for, loadPage_call, render_calls.
  destruct (pdfRef st); rewrite inflight_push; simpl;
    (rewrite decide_False by done); rewrite app_nil_r; [|done].
  split; [done|]. rewrite filter_app, filter_cons, filter_nil.
  rewrite decide_False by lia. by rewrite app_nil_r.
Qed.

Lemma no_request_for_trans i st1 st2 st3 :
  no_request_for i st1 st2 → no_request_for i st2 st3 → no_request_for i st1 st3.
Proof. unfold no_request_for. intros [-> ->] [-> ->]. done. Qed.

Lemma mark_no_request i idx st : no_request_for i st (mark idx st).
Proof. done. Qed.

(** The foreground loop starts nothing for an index that is in the queue. *)
Lemma foreground_loop_inflight i l st :
  i ∈ loadingQueue st →
  no_request_for i st (foreground_loop l st) ∧ i ∈ loadingQueue (foreground_loop l st).
Proof.
  revert st. induction l as [|idx rest IH]; intros st Hi; simpl; [done|].
  case_decide as Hq; [by apply IH|].
  assert (idx ≠ i) by (intros ->; done).
  split.
  - eapply no_request_for_trans; [apply (mark_no_request i idx)|].
    by apply loadPage_call_other.
  - unfold loadPage_call. destruct (pdfRef _); simpl; set_solver.
Qed.

(** The background loop starts nothing for an index that is in the queue or
    that is not in its batch. *)
Lemma background_loop_skips i l st :
  i ∈ loadingQueue st ∨ i ∉ l →
  no_request_for i st (background_loop l st).
Proof.
  revert st. induction l as [|idx rest IH]; intros st Hi; simpl; [done|].
  case_decide as Hq.
  - apply IH. destruct Hi as [?|Hi]; [by left|]. right. set_solver.
  - assert (idx ≠ i).
    { intros ->. destruct Hi as [?|Hi]; [done|]. apply Hi. left. }
    eapply no_request_for_trans; [|apply IH].
    + split; [|done]. rewrite inflight_push. simpl.
      rewrite decide_False by done. by rewrite app_nil_r.
    + destruct Hi as [Hi|Hi]; [left; simpl; set_solver|right; set_solver].
Qed.

Lemma foreground_loop_pages l st : pages (foreground_loop l st) = pages st.
Proof.
  revert st. induction l as [|idx rest IH]; intros st; simpl; [done|].
  case_decide; [apply IH|]. unfold loadPage_call. by destruct (pdfRef _).
Qed.

Lemma background_loop_pages l st : pages (background_loop l st) = pages st.
Proof.
  revert st. induction l as [|idx rest IH]; intros st; simpl; [done|].
  case_decide; rewrite IH; done.
Qed.

Lemma preloadPagesAround_pages c cur prio st :
  pages (preloadPagesAround c cur prio st) = pages st.
Proof.
  unfold preloadPagesAround. case_decide; [done|].
  destruct prio; [apply foreground_loop_pages|apply background_loop_pages].
Qed.

(** A background batch holds no index that the closure shows as cached or
    as loading. *)
Lemma background_batch_fresh c cur i :
  i ∈ batch c cur false → c_pages c !! i = None ∧ i ∉ c_loadingPages c.
Proof.
  intros Hi. unfold batch, slice0 in Hi. apply elem_of_take in Hi as (n & Hn & _).
  apply list_elem_of_lookup_2 in Hn. apply background_candidates in Hn. tauto.
Qed.

(** ** loadPage *)

Lemma loadPage_rendered idx d st :
  truthy d = true →
  loadPage idx (loadPageImage (idx + 1) (Rendered d)) st =
    (set_loadingQueue (loadingQueue st ∖ {[idx]})
       (setLoadingPages (λ prev, prev ∖ {[idx]})
          (setPages (λ prev, <[idx := d]> prev) st)), Normal tt).
Proof.
  intros Hd. unfold loadPage, loadPageImage, try_finally, try_catch, modify.
  simpl. unfold mbind, M_bind, mret, M_ret. simpl. rewrite Hd.
  unfold setPages. destruct (mounted st); reflexivity.
Qed.

Lemma loadPage_failed idx err st :
  loadPage idx (loadPageImage (idx + 1) (RenderError err)) st =
    (set_loadingQueue (loadingQueue st ∖ {[idx]})
       (setLoadingPages (λ prev, prev ∖ {[idx]})
          (console_error (LogPageFailed (idx + 1) err) st)), Normal tt).
Proof. reflexivity. Qed.

Lemma loadPage_encode_failed idx err st :
  loadPage idx (loadPageImage (idx + 1) (EncodeError err)) st =
    (set_loadingQueue (loadingQueue st ∖ {[idx]})
       (setLoadingPages (λ prev, prev ∖ {[idx]})
          (console_error (LogLoadError idx err) st)), Normal tt).
Proof. reflexivity. Qed.

Lemma loadPage_null idx st :
  loadPage idx (mret (M:=M state) (None : option string)) st =
    (set_loadingQueue (loadingQueue st ∖ {[idx]})
       (setLoadingPages (λ prev, prev ∖ {[idx]}) st), Normal tt).
Proof. reflexivity. Qed.

(** [loadPage] never completes abruptly, and it touches the record of no
    index but its own. *)
Lemma loadPage_total idx (called : bool) o st :
  ∃ st', loadPage idx (if called then loadPageImage (idx + 1) o else mret None) st
         = (st', Normal tt)
         ∧ (∀ i, i ≠ idx → pages st' !! i = pages st !! i)
         ∧ tasks st' = tasks st ∧ getPageCalls st' = getPageCalls st
         ∧ loadingQueue st' = loadingQueue st ∖ {[idx]}
         ∧ loadingPages st' = loadingPages st ∖ {[idx]}
         ∧ mounted st' = mounted st
         ∧ revoked st' = revoked st
         ∧ (mounted st = false → same_cache st st')
         ∧ loading st' = loading st.
Proof.
  destruct called; [destruct o as [d|err|err]; [destruct (truthy d) eqn:Hd| |]|].
  - eexists. split; [by apply loadPage_rendered|].
    unfold setPages, same_cache. destruct (mounted st) eqn:Hm; simpl;
      (repeat split; try done); intros i Hi; by rewrite lookup_insert_ne.
  - eexists. split.
    + unfold loadPage, loadPageImage, try_finally, try_catch, modify.
      simpl. unfold mbind, M_bind, mret, M_ret. simpl. rewrite Hd. reflexivity.
    + done.
  - eexists. split; [apply loadPage_failed|]. done.
  - eexists. split; [apply loadPage_encode_failed|]. done.
  - eexists. split; [apply loadPage_null|]. done.
Qed.

(** When a render of [idx] succeeds on the mounted viewer, the cache maps
    [idx] to its payload. *)
Lemma resume_loadPage_rendered idx k d st :
  mounted st = true → truthy d = true →
  pages (resume_loadPage idx true k (Rendered d) st) !! idx = Some d.
Proof.
  intros Hm Hd. unfold resume_loadPage. rewrite loadPage_rendered by done.
  destruct k as [rest|]; [rewrite foreground_loop_pages|];
    unfold setPages; rewrite Hm; simpl; by rewrite lookup_insert_eq.
Qed.

(** The record of [i] is changed by nothing but a successful render of [i]. *)
Lemma resume_loadPage_other i idx called k o st :
  idx ≠ i ∨ called = false ∨ (∀ d, o ≠ Rendered d) →
  pages (resume_loadPage idx called k o st) !! i = pages st !! i.
Proof.
  intros Hcase. unfold resume_loadPage.
  destruct (decide (idx = i)) as [->|Hne].
  - destruct Hcase as [?|[->|Ho]]; [done| |].
    + rewrite loadPage_null. destruct k; [rewrite foreground_loop_pages|]; done.
    + destruct called; [destruct o as [d|err|err]; [by destruct (Ho d)| |]|];
        [rewrite loadPage_failed|rewrite loadPage_encode_failed|rewrite loadPage_null];
        (destruct k; [rewrite foreground_loop_pages|]); done.
  - destruct (loadPage_total idx called o st) as (st' & -> & Hp & _).
    destruct k; [rewrite foreground_loop_pages|]; by apply Hp.
Qed.

(** ** At most one load per index *)

Lemma load_indices_app ts1 ts2 :
  load_indices (ts1 ++ ts2) = load_indices ts1 ++ load_indices ts2.
Proof. apply omap_app. Qed.

Lemma one_load_push_other t st :
  load_index t = None → one_load_per_index st → one_load_per_index (push t st).
Proof.
  intros Ht (Hnd & Hq & Hl). unfold one_load_per_index, push. simpl.
  rewrite load_indices_app. simpl. rewrite Ht, app_nil_r. done.
Qed.

Lemma one_load_start t idx st :
  load_index t = Some idx → idx ∉ loadingQueue st →
  one_load_per_index st → one_load_per_index (push t (mark idx st)).
Proof.
  intros Ht Hidx (Hnd & Hq & Hl). unfold one_load_per_index, push, mark. simpl.
  rewrite load_indices_app. simpl. rewrite Ht. simpl.
  split; [|split].
  - apply NoDup_app. split; [done|]. split; [|apply NoDup_singleton].
    intros i Hi Hi'. apply list_elem_of_singleton in Hi'. subst. by apply Hq in Hi.
  - intros i. rewrite elem_of_app, list_elem_of_singleton, elem_of_union, elem_of_singleton.
    by rewrite Hq.
  - by rewrite Hl.
Qed.

Lemma one_load_calls g st :
  one_load_per_index st → one_load_per_index (set_getPageCalls g st).
Proof. done. Qed.

Lemma one_load_loadPage_call idx k st :
  idx ∉ loadingQueue st →
  one_load_per_index st → one_load_per_index (loadPage_call idx k (mark idx st)).
Proof.
  intros Hidx Hst. unfold loadPage_call.
  destruct (pdfRef (mark idx st)).
  - apply (one_load_start (Await idx true k) idx (set_getPageCalls _ st)); done.
  - by apply (one_load_start (Await idx false k) idx st).
Qed.

Lemma one_load_foreground_loop l st :
  one_load_per_index st → one_load_per_index (foreground_loop l st).
Proof.
  revert st. induction l as [|idx rest IH]; intros st Hst; simpl; [done|].
  case_decide; [by apply IH|]. by apply one_load_loadPage_call.
Qed.

Lemma one_load_background_loop l st :
  one_load_per_index st → one_load_per_index (background_loop l st).
Proof.
  revert st. induction l as [|idx rest IH]; intros st Hst; simpl; [done|].
  case_decide; apply IH; [done|]. by apply (one_load_start (Idle idx) idx st).
Qed.

Lemma one_load_preloadPagesAround c cur prio st :
  one_load_per_index st → one_load_per_index (preloadPagesAround c cur prio st).
Proof.
  intros Hst. unfold preloadPagesAround. case_decide; [done|].
  destruct prio; [by apply one_load_foreground_loop|by apply one_load_background_loop].
Qed.

(** Dropping a task that is not a load. *)
Lemma one_load_drop_other t t1 t2 st :
  load_index t = None → tasks st = t1 ++ t :: t2 →
  one_load_per_index st → one_load_per_index (set_tasks (t1 ++ t2) st).
Proof.
  intros Ht Hts (Hnd & Hq & Hl). unfold one_load_per_index. simpl.
  rewrite Hts in Hnd, Hq. rewrite load_indices_app in *. simpl in *.
  rewrite Ht in Hnd, Hq. done.
Qed.

(** Dropping the load of [idx]: the other loads are of other indices. *)
Lemma one_load_drop t idx t1 t2 st :
  load_index t = Some idx → tasks st = t1 ++ t :: t2 →
  one_load_per_index st →
  NoDup (load_indices (t1 ++ t2)) ∧ (idx ∉ load_indices (t1 ++ t2)) ∧
  (∀ i, i ∈ loadingQueue st ↔ i = idx ∨ i ∈ load_indices (t1 ++ t2)) ∧
  loadingPages st = loadingQueue st.
Proof.
  intros Ht Hts (Hnd & Hq & Hl).
  rewrite Hts in Hnd, Hq. rewrite load_indices_app in *. simpl in *.
  rewrite Ht in Hnd, Hq.
  assert (Hperm : load_indices t1 ++ idx :: load_indices t2
                  ≡ₚ idx :: (load_indices t1 ++ load_indices t2))
    by (by rewrite Permutation_middle).
  rewrite Hperm in Hnd. apply NoDup_cons in Hnd as [Hni Hnd].
  split; [done|]. split; [done|]. split; [|done].
  intros i. rewrite Hq, Hperm, elem_of_cons. done.
Qed.

Lemma one_load_step st st' :
  one_load_per_index st → step st st' → one_load_per_index st'.
Proof.
  intros Hst Hstep.
  inversion Hstep as
    [s n Hm' Hr|s t1 t2 i Hts|s t1 t2 i cl k o Hts|s t1 t2 cur c Hts
    |s t1 t2 o Hts|s t1 t2 o Hts|s t1 t2 n o Hts|s t1 t2 Hts|s Hm'|s Hm']; subst.
  - unfold handlePageChange. apply one_load_push_other; [done|].
    by apply one_load_preloadPagesAround.
  - destruct (one_load_drop (Idle i) i t1 t2 st eq_refl Hts Hst) as (Hnd & Hni & Hq & Hl).
    assert (Hgoal : ∀ called g,
      one_load_per_index
        (push (Await i called None) (set_getPageCalls g (set_tasks (t1 ++ t2) st)))).
    { intros called g. unfold one_load_per_index, push. simpl.
      rewrite load_indices_app. simpl. split; [|split; [|done]].
      - apply NoDup_app. split; [done|]. split; [|apply NoDup_singleton].
        intros j Hj Hj'. apply list_elem_of_singleton in Hj'. by subst.
      - intros j. rewrite Hq, elem_of_app, list_elem_of_singleton. tauto. }
    unfold loadPage_call. simpl. destruct (pdfRef st); [apply Hgoal|].
    apply (Hgoal false (getPageCalls st)).
  - destruct (one_load_drop (Await i cl k) i t1 t2 st eq_refl Hts Hst)
      as (Hnd & Hni & Hq & Hl).
    unfold resume_loadPage.
    destruct (loadPage_total i cl o (set_tasks (t1 ++ t2) st))
      as (s' & -> & _ & Ht' & _ & Hq' & Hl' & _).
    simpl in Ht', Hq', Hl'.
    assert (Hs' : one_load_per_index s').
    { unfold one_load_per_index. rewrite Ht', Hq', Hl', Hl. split; [done|]. split; [|done].
      intros j. rewrite elem_of_difference, elem_of_singleton, Hq.
      split; [tauto|]. intros Hj. split; [by right|]. by intros ->. }
    destruct k; [by apply one_load_foreground_loop|done].
  - apply one_load_preloadPagesAround.
    by apply (one_load_drop_other (Timer cur c) t1 t2 st).
  - assert (Hd := one_load_drop_other InitOpen t1 t2 st eq_refl Hts Hst).
    destruct o as [d|err]; simpl.
    + destruct (cancelled st); [done|]. by apply one_load_push_other.
    + unfold init_catch. simpl. by destruct (cancelled st).
  - assert (Hd := one_load_drop_other InitDims t1 t2 st eq_refl Hts Hst).
    destruct o as [|err]; simpl.
    + by apply one_load_push_other.
    + unfold init_catch. simpl. by destruct (cancelled st).
  - assert (Hd := one_load_drop_other (InitPage n) t1 t2 st eq_refl Hts Hst).
    unfold init_page.
    destruct o as [d|err|err]; simpl.
    + unfold setPages. simpl.
      destruct (negb (cancelled st) && truthy d), (mounted st); case_decide;
        by apply one_load_push_other.
    + case_decide; by apply one_load_push_other.
    + unfold init_catch. simpl. by destruct (cancelled st).
  - assert (Hd := one_load_drop_other InitTimer t1 t2 st eq_refl Hts Hst).
    unfold init_timer. simpl. destruct (cancelled st); [done|].
    by apply one_load_preloadPagesAround.
  - done.
  - unfold commit. by destruct (shown st).
Qed.

(** In every state the viewer can reach, each index has at most one load
    deferred or awaited, and exactly the indices with such a load are in the
    in-flight queue and in the loading set. *)
Theorem one_load_per_index_reachable st :
  reachable st → one_load_per_index st.
Proof.
  intros Hr. unfold reachable in Hr.
  assert (Hm : one_load_per_index mount).
  { split; [constructor|]. split; [|done]. intros i. simpl. set_solver. }
  revert Hm. induction Hr as [|x y z Hxy _ IH]; [done|].
  intros Hx. apply IH. by eapply one_load_step.
Qed.

(** ** The loads in flight for one index *)

Lemma load_indices_cons t ts :
  load_indices (t :: ts) =
    match load_index t with
    | Some i => i :: load_indices ts
    | None => load_indices ts
    end.
Proof. reflexivity. Qed.

Lemma loads_load_index i t : loads i t ↔ load_index t = Some i.
Proof. destruct t; simpl; naive_solver. Qed.

Lemma inflight_load_indices i ts :
  i ∈ load_indices ts ↔ filter (loads i) ts ≠ [].
Proof.
  induction ts as [|t ts IH]; [by rewrite elem_of_nil|].
  rewrite load_indices_cons, filter_cons.
  destruct (load_index t) as [j|] eqn:Ht.
  - rewrite elem_of_cons. case_decide as Hl.
    + apply loads_load_index in Hl. split; [done|]. intros _. left. congruence.
    + rewrite <- IH. split; [|by right].
      intros [->|?]; [|done]. exfalso. apply Hl. by apply loads_load_index.
  - rewrite decide_False; [done|]. intros Hl. apply loads_load_index in Hl. congruence.
Qed.

Lemma inflight_at_most_one i ts :
  NoDup (load_indices ts) → (length (filter (loads i) ts) ≤ 1)%nat.
Proof.
  induction ts as [|t ts IH]; [simpl; lia|].
  rewrite load_indices_cons, filter_cons.
  destruct (load_index t) as [j|] eqn:Ht.
  - intros Hn. apply NoDup_cons in Hn as [Hni Hn]. case_decide as Hl; [|by apply IH].
    apply loads_load_index in Hl. assert (j = i) by congruence. subst j.
    destruct (filter (loads i) ts) eqn:Hf; [simpl; lia|].
    exfalso. apply Hni, inflight_load_indices. by rewrite Hf.
  - intros Hn. rewrite decide_False; [by apply IH|].
    intros Hl. apply loads_load_index in Hl. congruence.
Qed.

(** In a reachable state an index of the in-flight queue has exactly one
    load, deferred or awaited. *)
Lemma inflight_single st i :
  one_load_per_index st → i ∈ loadingQueue st → ∃ t, inflight i st = [t].
Proof.
  intros (Hnd & Hq & _) Hi.
  pose proof (inflight_at_most_one i (tasks st) Hnd) as Hlen.
  apply Hq, inflight_load_indices in Hi. unfold inflight.
  destruct (filter (loads i) (tasks st)) as [|t [|t' l]]; [done|by exists t|].
  simpl in Hlen. lia.
Qed.

Lemma inflight_drop_other i t t1 t2 st :
  ¬ loads i t → tasks st = t1 ++ t :: t2 →
  inflight i (set_tasks (t1 ++ t2) st) = inflight i st.
Proof.
  intros Ht Hts. unfold inflight. simpl. rewrite Hts, !filter_app, filter_cons.
  by rewrite decide_False.
Qed.

Lemma background_loop_queue i l st :
  i ∈ loadingQueue st → i ∈ loadingQueue (background_loop l st).
Proof.
  revert st. induction l as [|idx rest IH]; intros st Hi; simpl; [done|].
  case_decide; apply IH; [done|]. simpl. set_solver.
Qed.

(** A pass run while [i] is in the queue, up to its first suspension. *)
Lemma preloadPagesAround_inflight c cur prio i st :
  i ∈ loadingQueue st →
  no_request_for i st (preloadPagesAround c cur prio st) ∧
  i ∈ loadingQueue (preloadPagesAround c cur prio st).
Proof.
  intros Hi. unfold preloadPagesAround. case_decide; [done|].
  destruct prio; [by apply foreground_loop_inflight|].
  split; [apply background_loop_skips; by left|by apply background_loop_queue].
Qed.

(** ** While [init] is suspended, nothing else runs *)

Lemma foreground_loop_new_tasks t l st :
  t ∈ tasks (foreground_loop l st) → t ∈ tasks st ∨ is_Some (load_index t).
Proof.
  revert st. induction l as [|idx rest IH]; intros st Ht; simpl in Ht; [by left|].
  case_decide; [by apply IH|].
  unfold loadPage_call in Ht. destruct (pdfRef _); simpl in Ht;
    apply elem_of_app in Ht as [Ht|Ht]; try (by left);
    apply list_elem_of_singleton in Ht; subst; right; by eexists.
Qed.

Lemma background_loop_new_tasks t l st :
  t ∈ tasks (background_loop l st) → t ∈ tasks st ∨ is_Some (load_index t).
Proof.
  revert st. induction l as [|idx rest IH]; intros st Ht; simpl in Ht; [by left|].
  case_decide; [by apply IH|].
  apply IH in Ht as [Ht|Ht]; [|by right]. simpl in Ht.
  apply elem_of_app in Ht as [Ht|Ht]; [by left|].
  apply list_elem_of_singleton in Ht; subst; right; by eexists.
Qed.

Lemma preloadPagesAround_new_tasks t c cur prio st :
  t ∈ tasks (preloadPagesAround c cur prio st) → t ∈ tasks st ∨ is_Some (load_index t).
Proof.
  unfold preloadPagesAround. case_decide; [by left|].
  destruct prio; [apply foreground_loop_new_tasks|apply background_loop_new_tasks].
Qed.

Lemma resume_loadPage_new_tasks t idx called k o st :
  t ∈ tasks (resume_loadPage idx called k o st) → t ∈ tasks st ∨ is_Some (load_index t).
Proof.
  unfold resume_loadPage.
  destruct (loadPage_total idx called o st) as (s' & -> & _ & Ht' & _).
  destruct k as [rest|]; [|rewrite Ht'; by left].
  intros Ht. apply foreground_loop_new_tasks in Ht. by rewrite Ht' in Ht.
Qed.

Lemma init_task_not_load t : init_task t → ¬ is_Some (load_index t).
Proof. destruct t; simpl; intros Hi [x Hx]; done. Qed.

Lemma singleton_split {A} (v t : A) (t1 t2 : list A) :
  [v] = t1 ++ t :: t2 → t1 = [] ∧ t2 = [] ∧ v = t.
Proof.
  destruct t1 as [|a t1]; simpl; intros H; inversion H; subst; [done|].
  by destruct t1.
Qed.

Lemma init_alone_sole t t1 t2 st :
  init_alone st → tasks st = t1 ++ t :: t2 → (∃ u, u ∈ t1 ++ t2 ∧ init_task u) → init_task t.
Proof.
  intros Hst Hts (u & Hu & Hinit).
  destruct Hst as ([v Hv] & _).
  { exists u. split; [|done]. rewrite Hts. set_solver. }
  rewrite Hv in Hts. apply singleton_split in Hts as (-> & -> & _).
  by apply elem_of_nil in Hu.
Qed.

Lemma init_alone_step st st' : init_alone st → step st st' → init_alone st'.
Proof.
  intros Hst Hstep.
  inversion Hstep as
    [s n Hm' Hr|s t1 t2 i Hts|s t1 t2 i cl k o Hts|s t1 t2 cur c Hts
    |s t1 t2 o Hts|s t1 t2 o Hts|s t1 t2 n o Hts|s t1 t2 Hts|s Hm'|s Hm']; subst.
  - intros (t & Ht & Hinit). exfalso.
    unfold handlePageChange in Ht. simpl in Ht.
    apply elem_of_app in Ht as [Ht|Ht];
      [|apply list_elem_of_singleton in Ht; by subst].
    apply preloadPagesAround_new_tasks in Ht as [Ht|Ht];
      [|by apply init_task_not_load in Ht].
    destruct Hst as (_ & _ & Hl); [by exists t|].
    unfold render in Hr. by rewrite Hl in Hr.
  - intros (t & Ht & Hinit). exfalso.
    unfold loadPage_call in Ht.
    assert (Hin : t ∈ t1 ++ t2).
    { destruct (pdfRef _); simpl in Ht; apply elem_of_app in Ht as [Ht|Ht]; try done;
        apply list_elem_of_singleton in Ht; by subst. }
    apply (init_alone_sole (Idle i) t1 t2 st Hst Hts). by exists t.
  - intros (t & Ht & Hinit). exfalso.
    apply resume_loadPage_new_tasks in Ht as [Ht|Ht];
      [|by apply init_task_not_load in Ht].
    apply (init_alone_sole (Await i cl k) t1 t2 st Hst Hts). by exists t.
  - intros (t & Ht & Hinit). exfalso.
    apply preloadPagesAround_new_tasks in Ht as [Ht|Ht];
      [|by apply init_task_not_load in Ht].
    apply (init_alone_sole (Timer cur c) t1 t2 st Hst Hts). by exists t.
  - destruct Hst as ([v Hv] & Hq & Hl); [exists InitOpen; rewrite Hts; set_solver|].
    rewrite Hv in Hts. apply singleton_split in Hts as (-> & -> & _). simpl in *.
    intros (t & Ht & Hinit).
    destruct o as [d|err]; simpl in *.
    + destruct (cancelled st); simpl in *; [by apply elem_of_nil in Ht|]. eauto.
    + unfold init_catch in *. simpl in *. destruct (cancelled st); simpl in *; by apply elem_of_nil in Ht.
  - destruct Hst as ([v Hv] & Hq & Hl); [exists InitDims; rewrite Hts; set_solver|].
    rewrite Hv in Hts. apply singleton_split in Hts as (-> & -> & _). simpl in *.
    intros (t & Ht & Hinit).
    destruct o as [|err]; simpl in *; [eauto|].
    unfold init_catch in *. simpl in *. destruct (cancelled st); simpl in *; by apply elem_of_nil in Ht.
  - destruct Hst as ([v Hv] & Hq & Hl); [exists (InitPage n); rewrite Hts; set_solver|].
    rewrite Hv in Hts. apply singleton_split in Hts as (-> & -> & _). simpl in *.
    intros (t & Ht & Hinit). revert Ht. unfold init_page, setPages.
    destruct o as [d|err|err]; simpl.
    + destruct (negb (cancelled st) && truthy d), (mounted st); case_decide; simpl;
        intros Ht; try (apply list_elem_of_singleton in Ht; by subst); eauto.
    + case_decide; simpl; intros Ht;
        try (apply list_elem_of_singleton in Ht; by subst); eauto.
    + unfold init_catch. simpl. destruct (cancelled st); simpl; intros Ht;
        by apply elem_of_nil in Ht.
  - intros (t & Ht & Hinit). exfalso.
    assert (Hin : t ∈ t1 ++ t2).
    { unfold init_timer in Ht. simpl in Ht. destruct (cancelled st); [done|].
      apply preloadPagesAround_new_tasks in Ht as [Ht|Ht]; [done|].
      by apply init_task_not_load in Ht. }
    apply (init_alone_sole InitTimer t1 t2 st Hst Hts). by exists t.
  - exact Hst.
  - unfold commit. by destruct (shown st).
Qed.

Lemma init_alone_reachable st : reachable st → init_alone st.
Proof.
  intros Hr. unfold reachable in Hr.
  assert (Hm : init_alone mount) by (intros _; simpl; eauto).
  revert Hm. induction Hr as [|x y z Hxy _ IH]; [done|].
  intros Hx. apply IH. by eapply init_alone_step.
Qed.

(** ** C1 *)

(** While [i] is in flight, a transition that is not a stage of the load of
    [i] itself starts nothing for [i] and leaves its record alone. *)
Lemma inflight_step st st' i :
  init_alone st → i ∈ loadingQueue st → step st st' →
  (no_request_for i st st' ∧ pages st' !! i = pages st !! i ∧ i ∈ loadingQueue st') ∨
  own_stage i st st'.
Proof.
  intros Hinit Hi Hstep.
  assert (Hnoinit : ∀ t t1 t2, init_task t → tasks st ≠ t1 ++ t :: t2).
  { intros t t1 t2 Ht Hts.
    destruct Hinit as (_ & Hq & _); [exists t; rewrite Hts; set_solver|].
    rewrite Hq in Hi. by apply elem_of_empty in Hi. }
  inversion Hstep as
    [s n Hm' Hr|s t1 t2 idx Hts|s t1 t2 idx cl k o Hts|s t1 t2 cur c Hts
    |s t1 t2 o Hts|s t1 t2 o Hts|s t1 t2 n o Hts|s t1 t2 Hts|s Hm'|s Hm']; subst.
  - left. unfold handlePageChange.
    destruct (preloadPagesAround_inflight (closure_of st) n true i (set_currentPage n st) Hi)
      as [[Hfl Hrc] Hq].
    split; [split|split].
    + rewrite inflight_push. simpl. rewrite app_nil_r. exact Hfl.
    + exact Hrc.
    + simpl. by rewrite preloadPagesAround_pages.
    + exact Hq.
  - destruct (decide (idx = i)) as [->|Hne]; [right; left; eauto|]. left.
    destruct (loadPage_call_other i idx None (set_tasks (t1 ++ t2) st) Hne) as [Hfl Hrc].
    split; [split|split].
    + rewrite Hfl. apply (inflight_drop_other i (Idle idx) t1 t2 st); [simpl; congruence|done].
    + exact Hrc.
    + unfold loadPage_call. by destruct (pdfRef _).
    + unfold loadPage_call. by destruct (pdfRef _).
  - destruct (decide (idx = i)) as [->|Hne]; [right; right; eauto 10|]. left.
    unfold resume_loadPage.
    destruct (loadPage_total idx cl o (set_tasks (t1 ++ t2) st))
      as (s' & -> & Hp & Ht' & Hg' & Hq' & _).
    simpl in Ht', Hg', Hq'.
    assert (Hi' : i ∈ loadingQueue s') by (rewrite Hq'; set_solver).
    assert (Hs' : no_request_for i st s' ∧ pages s' !! i = pages st !! i).
    { split; [split|].
      - unfold inflight. rewrite Ht'.
        apply (inflight_drop_other i (Await idx cl k) t1 t2 st); [simpl; congruence|done].
      - unfold render_calls. by rewrite Hg'.
      - by rewrite Hp. }
    destruct Hs' as [Hnr Hpg].
    destruct k as [rest|]; [|done].
    destruct (foreground_loop_inflight i rest s' Hi') as [Hnr' Hq''].
    split; [by eapply no_request_for_trans|]. split; [|done].
    by rewrite foreground_loop_pages.
  - left.
    destruct (preloadPagesAround_inflight c cur false i (set_tasks (t1 ++ t2) st) Hi)
      as [[Hfl Hrc] Hq].
    split; [split|split].
    + rewrite Hfl. apply (inflight_drop_other i (Timer cur c) t1 t2 st); [simpl; tauto|done].
    + exact Hrc.
    + by rewrite preloadPagesAround_pages.
    + exact Hq.
  - by destruct (Hnoinit InitOpen t1 t2).
  - by destruct (Hnoinit InitDims t1 t2).
  - by destruct (Hnoinit (InitPage n) t1 t2).
  - left. unfold init_timer. simpl.
    assert (Hsame : (if cancelled st then set_tasks (t1 ++ t2) st
                     else preloadPagesAround first_render 0 false (set_tasks (t1 ++ t2) st))
                    = set_tasks (t1 ++ t2) st).
    { destruct (cancelled st); [done|]. unfold preloadPagesAround.
      rewrite decide_True; [done|by right]. }
    rewrite Hsame. split; [split; [|done]|done].
    apply (inflight_drop_other i InitTimer t1 t2 st); [simpl; tauto|done].
  - left. done.
  - left. unfold commit. by destruct (shown st).
Qed.

(** C1, as the code has it.  While [i] is in the in-flight queue, a request
    for [i], that is the loop of a pass of either priority reaching [i], is
    skipped, whether the loop has just been entered or is resumed after a
    load it awaited; so a pass run in that state, up to its first
    suspension, starts nothing for [i] and does not change the cache.  If
    the state is one the viewer can reach, [i] has exactly one load,
    deferred or awaited, and every transition from that state either is a
    stage of the load of [i] itself, or makes no [getPage] call for [i],
    adds and removes no load of [i], leaves the record of [i] as it is and
    leaves [i] in the queue.  Apart from the queue, a background pass starts
    nothing for an index that its closure shows as cached or as loading.
    The cache itself protects no record: a render of [idx] that succeeds on
    the mounted viewer stores its payload under [idx], whatever was there
    (and the foreground branch does not read the cache: it requests the
    current index and its successor whether they are cached or not). *)
Theorem C1_inflight_or_background_cached_is_noop (st : state) (i : Z) :
  i ∈ loadingQueue st →
  (∀ rest, foreground_loop (i :: rest) st = foreground_loop rest st) ∧
  (∀ rest, background_loop (i :: rest) st = background_loop rest st) ∧
  (∀ c currentIndex priority,
     let st' := preloadPagesAround c currentIndex priority st in
     no_request_for i st st' ∧ pages st' = pages st ∧ i ∈ loadingQueue st') ∧
  (reachable st →
     (∃ t, inflight i st = [t]) ∧
     (∀ st', step st st' →
        (no_request_for i st st' ∧ pages st' !! i = pages st !! i ∧ i ∈ loadingQueue st') ∨
        own_stage i st st')) ∧
  (∀ c currentIndex s j,
     is_Some (c_pages c !! j) ∨ j ∈ c_loadingPages c →
     let s' := preloadPagesAround c currentIndex false s in
     no_request_for j s s' ∧ pages s' = pages s) ∧
  (∀ idx k d s,
     mounted s = true → truthy d = true →
     pages (resume_loadPage idx true k (Rendered d) s) !! idx = Some d).
Proof.
  intros Hi.
  split; [intros rest; simpl; by rewrite decide_True|].
  split; [intros rest; simpl; by rewrite decide_True|].
  split.
  { intros c cur prio st'.
    destruct (preloadPagesAround_inflight c cur prio i st Hi) as [Hnr Hq].
    split; [exact Hnr|]. split; [apply preloadPagesAround_pages|exact Hq]. }
  split.
  { intros Hr.
    split; [by apply inflight_single; [apply one_load_per_index_reachable|]|].
    intros st' Hstep. by apply inflight_step; [apply init_alone_reachable|..]. }
  split; [|intros idx k d s; apply resume_loadPage_rendered].
  intros c cur s j Hc s'. split; [|apply preloadPagesAround_pages].
  unfold s', preloadPagesAround. case_decide; [done|].
  apply background_loop_skips. right. intros Hb.
  apply background_batch_fresh in Hb as [Hnone Hnl].
  destruct Hc as [[d Hd]|Hl]; [congruence|done].
Qed.

Lemma run_shown_reachable : reachable run_shown.
Proof.
  unfold reachable.
  eapply rtc_l; [apply (step_init_open mount [] [] (Opened doc10)); reflexivity|].
  eapply rtc_l; [apply (step_init_dims run_opened [] [] PageReady); reflexivity|].
  eapply rtc_l; [apply (step_init_page run_dims [] [] 1 (Rendered "blob:p0")); reflexivity|].
  eapply rtc_l; [apply (step_init_page run_first [] [] 2 (Rendered "blob:p1")); reflexivity|].
  eapply rtc_l; [apply (step_render run_second); reflexivity|].
  apply rtc_refl.
Qed.

Lemma run_turned_reachable : reachable run_turned.
Proof.
  eapply rtc_r; [apply run_shown_reachable|].
  apply (step_navigate run_shown 2); reflexivity.
Qed.

Lemma C1_inflight_or_background_cached_is_noop_witness :
  ∃ t, inflight 2 run_turned = [t].
Proof.
  assert (Hq : 2 ∈ loadingQueue run_turned) by (vm_compute; set_solver).
  destruct (C1_inflight_or_background_cached_is_noop run_turned 2 Hq)
    as (_ & _ & _ & Hreach & _).
  apply Hreach, run_turned_reachable.
Defined.

(** C1 as stated fails for a foreground pass: with page 0 cached and nothing
    in flight, the pass for index 0 calls [getPage(1)] again, and when that
    render succeeds the record of index 0 is overwritten. *)
Lemma C1_foreground_rerenders_cached_page :
  pages (showing cached_0) !! 0 = Some "data:old"%string ∧
  (0 ∉ loadingQueue (showing cached_0)) ∧
  (¬ no_request_for 0 (showing cached_0)
       (preloadPagesAround (closure_of (showing cached_0)) 0 true (showing cached_0))) ∧
  getPageCalls
    (preloadPagesAround (closure_of (showing cached_0)) 0 true (showing cached_0)) = [1] ∧
  tasks
    (preloadPagesAround (closure_of (showing cached_0)) 0 true (showing cached_0))
    = [Await 0 true (Some [1])] ∧
  pages
    (resume_loadPage 0 true (Some [1]) (Rendered "data:new")
       (set_tasks []
          (preloadPagesAround (closure_of (showing cached_0)) 0 true (showing cached_0))))
    !! 0 = Some "data:new"%string.
Proof.
  split; [reflexivity|]. split; [vm_compute; set_solver|].
  split; [|split; [reflexivity|split; [reflexivity|]]].
  - intros [Hfl _]. vm_compute in Hfl. discriminate.
  - apply resume_loadPage_rendered; reflexivity.
Qed.

(** ** C2: the background pass *)

Lemma closer_NoDup cur (l : list Z) : StronglySorted (closer cur) l → NoDup l.
Proof.
  induction 1 as [|x l _ IH Hx]; [constructor|].
  constructor; [|done]. intros Hin.
  rewrite Forall_forall in Hx. by apply (closer_irrefl cur x), Hx.
Qed.

Lemma batch_NoDup c cur : NoDup (batch c cur false).
Proof.
  apply (closer_NoDup cur). unfold batch, slice0.
  apply take_StronglySorted, background_sorted.
Qed.

Lemma filter_queue_fresh (q : gset Z) (idx : Z) (l : list Z) :
  idx ∉ l →
  filter (λ i, i ∉ q ∪ {[idx]}) l = filter (λ i, i ∉ q) l.
Proof.
  induction l as [|x l IH]; intros Hni; [done|].
  apply not_elem_of_cons in Hni as [Hne Hni].
  rewrite !filter_cons, IH by done.
  destruct (decide (x ∈ q)) as [Hx|Hx].
  - rewrite !decide_False; [done| |]; set_solver.
  - rewrite !decide_True; [done| |]; set_solver.
Qed.

(** The loop defers one load for every index of the batch that is not in
    the queue, in batch order, and marks it. *)
Lemma background_loop_defers (l : list Z) st :
  NoDup l →
  let new := filter (λ i, i ∉ loadingQueue st) l in
  tasks (background_loop l st) = tasks st ++ (Idle <$> new) ∧
  loadingQueue (background_loop l st) = loadingQueue st ∪ list_to_set new ∧
  loadingPages (background_loop l st) = loadingPages st ∪ list_to_set new ∧
  getPageCalls (background_loop l st) = getPageCalls st.
Proof.
  revert st. induction l as [|idx rest IH]; intros st Hnd new; unfold new; simpl.
  - rewrite app_nil_r. split; [done|]. split; [set_solver|]. split; [set_solver|done].
  - apply NoDup_cons in Hnd as [Hni Hnd].
    rewrite filter_cons. case_decide as Hq.
    + rewrite decide_False by (intros Hn; by apply Hn). by apply IH.
    + rewrite decide_True by done.
      destruct (IH (push (Idle idx) (mark idx st)) Hnd) as (Ht & Hlq & Hlp & Hg).
      simpl in Ht, Hlq, Hlp, Hg. rewrite filter_queue_fresh in Ht, Hlq, Hlp by done.
      rewrite Ht, Hlq, Hlp, Hg. rewrite fmap_cons, list_to_set_cons.
      split; [by rewrite <- app_assoc|]. split; [set_solver|]. split; [set_solver|done].
Qed.

(** C2, as the code has it.  The selection is made from the closure of the
    pass, the [pageCount], [pages] and [loadingPages] of the render that
    created it: the sorted candidates are exactly the indices of the window
    [currentIndex - 2 .. currentIndex + 3] that lie in [0, pageCount) and
    are neither cached nor loading in that closure; they are ordered by
    ascending distance from [currentIndex], the lower index first on a tie;
    the batch is their first four, so it has at most four entries and every
    candidate left out is farther than every one taken.  The state at the
    time of the pass is consulted only afterwards, and only its in-flight
    queue: with a document open, the pass defers a load for every index of
    the batch that is not in the queue, in batch order, and calls [getPage]
    for none. *)
Theorem C2_background_selection (c : closure) (currentIndex : Z) :
  let full := pagesToLoad c currentIndex false in
  let sel := batch c currentIndex false in
  (∀ idx, idx ∈ full ↔
     currentIndex - 2 ≤ idx ≤ currentIndex + 3 ∧
     0 ≤ idx < c_pageCount c ∧
     c_pages c !! idx = None ∧ idx ∉ c_loadingPages c) ∧
  StronglySorted (closer currentIndex) full ∧
  sel = take 4 full ∧
  StronglySorted (closer currentIndex) sel ∧
  (length sel ≤ 4)%nat ∧
  (∀ a b, a ∈ sel → b ∈ full → b ∉ sel → closer currentIndex a b) ∧
  (∀ st, pdfRef st ≠ None → c_pageCount c ≠ 0 →
     let st' := preloadPagesAround c currentIndex false st in
     tasks st' = tasks st ++ (Idle <$> filter (λ i, i ∉ loadingQueue st) sel) ∧
     getPageCalls st' = getPageCalls st ∧ pages st' = pages st).
Proof.
  intros full sel.
  pose proof (background_sorted c currentIndex) as Hsorted. fold full in Hsorted.
  assert (Hsel : sel = take 4 full) by done.
  split; [apply background_candidates|]. split; [exact Hsorted|]. split; [exact Hsel|].
  split; [rewrite Hsel; by apply take_StronglySorted|].
  split; [rewrite Hsel, length_take; lia|].
  split.
  - intros a b Ha Hb Hnb. rewrite Hsel in Ha, Hnb.
    rewrite <- (take_drop 4 full) in Hb, Hsorted.
    apply elem_of_app in Hb as [Hb|Hb]; [done|].
    by eapply StronglySorted_app_1_elem_of.
  - intros st Hpdf Hpc st'. unfold st', preloadPagesAround.
    rewrite decide_False by (intros [?|?]; done).
    destruct (background_loop_defers sel st (batch_NoDup c currentIndex))
      as (Ht & _ & _ & Hg).
    split; [exact Ht|]. split; [exact Hg|apply background_loop_pages].
Qed.

Lemma run_spread_2_reachable : reachable run_spread_2.
Proof.
  eapply rtc_r; [apply run_turned_reachable|].
  apply (step_await run_turned [InitTimer] [Timer 2 (closure_of run_shown)]
           2 true (Some [3]) (Rendered "blob:p2")).
  reflexivity.
Qed.

Lemma run_spread_3_reachable : reachable run_spread_3.
Proof.
  eapply rtc_r; [apply run_spread_2_reachable|].
  apply (step_await run_spread_2 [InitTimer; Timer 2 (closure_of run_shown)] []
           3 true (Some []) (Rendered "blob:p3")).
  reflexivity.
Qed.

(** C2 as stated fails when "cached" and "in flight" are read at the time of
    the pass.  After [init] has cached the indices 0 and 1, a turn to index 2
    renders 2 and 3 in the foreground; the timer of that turn then runs the
    background pass with the closure of the render before the turn, in
    which 2 and 3 are not cached: the selection is 2, 3, 4, 5, and since
    nothing is in flight a load is deferred for each, so the cached indices
    2 and 3 are requested again. *)
Lemma C2_background_pass_selects_cached_indices :
  reachable run_spread_3 ∧
  tasks run_spread_3 = [InitTimer; Timer 2 (closure_of run_shown)] ∧
  loadingQueue run_spread_3 = ∅ ∧
  pages run_spread_3 !! 2 = Some "blob:p2"%string ∧
  pages run_spread_3 !! 3 = Some "blob:p3"%string ∧
  batch (closure_of run_shown) 2 false = [2; 3; 4; 5] ∧
  step run_spread_3 run_background ∧
  tasks run_background = [InitTimer; Idle 2; Idle 3; Idle 4; Idle 5] ∧
  ¬ (∀ idx, idx ∈ batch (closure_of run_shown) 2 false → pages run_spread_3 !! idx = None).
Proof.
  split; [apply run_spread_3_reachable|].
  split; [reflexivity|]. split; [reflexivity|]. split; [reflexivity|].
  split; [reflexivity|]. split; [vm_compute; reflexivity|].
  split.
  { apply (step_timer run_spread_3 [InitTimer] [] 2 (closure_of run_shown)). reflexivity. }
  split; [vm_compute; reflexivity|].
  intros Hclaim. specialize (Hclaim 2).
  assert (H2 : 2 ∈ batch (closure_of run_shown) 2 false).
  { replace (batch (closure_of run_shown) 2 false) with [2; 3; 4; 5]
      by (vm_compute; reflexivity). left. }
  apply Hclaim in H2. discriminate H2.
Qed.

(** ** C5: a failing render *)

Lemma background_head_current c cur :
  0 ≤ cur < c_pageCount c → c_pages c !! cur = None → cur ∉ c_loadingPages c →
  ∃ rest, batch c cur false = cur :: rest.
Proof.
  intros Hb Hp Hl.
  assert (Hin : cur ∈ pagesToLoad c cur false).
  { apply background_candidates. repeat split; auto; lia. }
  pose proof (background_sorted c cur) as Hs.
  unfold batch, slice0. destruct (pagesToLoad c cur false) as [|x l]; [by apply elem_of_nil in Hin|].
  simpl. exists (take 3 l). f_equal.
  apply elem_of_cons in Hin as [->|Hin]; [done|].
  apply StronglySorted_cons in Hs as [Hx _].
  rewrite Forall_forall in Hx. specialize (Hx cur Hin). unfold closer in Hx. lia.
Qed.

Lemma background_loop_keeps t l st :
  t ∈ tasks st → t ∈ tasks (background_loop l st).
Proof.
  revert st. induction l as [|idx rest IH]; intros st Ht; simpl; [done|].
  case_decide; apply IH; [done|]. simpl. apply elem_of_app. by left.
Qed.

Lemma loadPage_failure idx o entry st :
  failure_log idx o = Some entry →
  loadPage idx (loadPageImage (idx + 1) o) st =
    (set_loadingQueue (loadingQueue st ∖ {[idx]})
       (setLoadingPages (λ prev, prev ∖ {[idx]}) (console_error entry st)), Normal tt).
Proof.
  destruct o as [d|err|err]; simpl; intros Ho; inversion Ho; subst.
  - apply loadPage_failed.
  - apply loadPage_encode_failed.
Qed.

(** C5, as the code has it.  When the render of [idx] fails, whether inside
    [loadPageImage] or by the rejection of the promise it returned,
    [loadPage] completes normally (no exception leaves it) and the cache is
    left as it was: an index that had no entry still has none, and an index
    that was cached (a foreground pass requests the current page again,
    cached or not) keeps its old record.  [idx] is in neither the loading
    set nor the in-flight queue, and the only trace is one console entry.
    The loop that awaited the load goes on.  The index can be requested
    again: a later foreground pass for it calls [getPage] again, and, when
    it is not cached, a later background pass around it selects it first
    and defers its load. *)
Theorem C5_render_failure_is_contained
    (idx : Z) (o : renderOutcome) (entry : logEntry) (st : state) :
  failure_log idx o = Some entry →
  let r := loadPage idx (loadPageImage (idx + 1) o) st in
  let st' := fst r in
  snd r = Normal tt ∧
  pages st' = pages st ∧ shown st' = shown st ∧
  (pages st !! idx = None → pages st' !! idx = None) ∧
  (∀ d, pages st !! idx = Some d → pages st' !! idx = Some d) ∧
  (idx ∉ loadingPages st') ∧
  (idx ∉ loadingQueue st') ∧
  console st' = console st ++ [entry] ∧
  error st' = error st ∧ tasks st' = tasks st ∧
  (∀ k, resume_loadPage idx true k o st =
        match k with Some rest => foreground_loop rest st' | None => st' end) ∧
  (pdfRef st ≠ None → 0 ≤ idx < pageCount st →
     getPageCalls (preloadPagesAround (closure_of st') idx true st')
       = getPageCalls st ++ [idx + 1] ∧
     (pages st !! idx = None →
        (∃ rest, batch (closure_of st') idx false = idx :: rest) ∧
        Idle idx ∈ tasks (preloadPagesAround (closure_of st') idx false st'))).
Proof.
  intros Ho r st'. unfold st', r. rewrite (loadPage_failure idx o entry st Ho). simpl.
  split; [done|]. split; [done|]. split; [done|]. split; [done|]. split; [done|].
  split; [set_solver|]. split; [set_solver|].
  split; [done|]. split; [done|]. split; [done|].
  split; [intros k; unfold resume_loadPage; by rewrite (loadPage_failure idx o entry st Ho)|].
  intros Hpdf Hb.
  set (s := set_loadingQueue _ _).
  assert (Hguard : ¬ (pdfRef s = None ∨ c_pageCount (closure_of s) = 0)).
  { simpl. intros [?|?]; [done|lia]. }
  split.
  - unfold preloadPagesAround. rewrite decide_False by done.
    rewrite foreground_batch. simpl.
    rewrite decide_False by (subst s; simpl; set_solver).
    unfold loadPage_call. simpl. destruct (pdfRef st); [done|congruence].
  - intros Hp.
    assert (Hhead : ∃ rest, batch (closure_of s) idx false = idx :: rest).
    { apply background_head_current; simpl; [lia|done|set_solver]. }
    split; [exact Hhead|].
    destruct Hhead as [rest Hrest].
    unfold preloadPagesAround. rewrite decide_False by done. rewrite Hrest. simpl.
    rewrite decide_False by (subst s; simpl; set_solver).
    apply background_loop_keeps. simpl. apply elem_of_app. right. left.
Qed.

Lemma C5_render_failure_is_contained_witness :
  Idle 4 ∈ tasks
    (preloadPagesAround
       (closure_of (fst (loadPage 4 (loadPageImage (4 + 1) (RenderError "corrupt")) (showing ∅))))
       4 false
       (fst (loadPage 4 (loadPageImage (4 + 1) (RenderError "corrupt")) (showing ∅)))).
Proof.
  destruct (C5_render_failure_is_contained 4 (RenderError "corrupt")
              (LogPageFailed 5 "corrupt") (showing ∅) eq_refl)
    as (_ & _ & _ & _ & _ & _ & _ & _ & _ & _ & _ & Hretry).
  destruct Hretry as [_ Hbg]; [simpl; congruence|simpl; lia|].
  apply Hbg. reflexivity.
Defined.

Lemma run_again_failed_reachable : reachable run_again_failed.
Proof.
  eapply rtc_r; [eapply rtc_r; [apply run_shown_reachable|]|].
  - apply (step_navigate run_shown 0); reflexivity.
  - apply (step_await run_again [InitTimer] [Timer 0 (closure_of run_shown)]
             0 true (Some [1]) (RenderError "corrupt")).
    reflexivity.
Qed.

(** C5 as stated fails for an index that is cached.  After [init] has
    cached the indices 0 and 1, a turn back to index 0 requests page 1 again
    in the foreground; when that render fails, the index leaves the queue
    and the failure is logged, but the cache still has the old record of
    index 0. *)
Lemma C5_failed_rerender_keeps_the_cached_record :
  reachable run_again_failed ∧
  pages run_shown !! 0 = Some "blob:p0"%string ∧
  tasks run_again = [InitTimer; Await 0 true (Some [1]); Timer 0 (closure_of run_shown)] ∧
  failure_log 0 (RenderError "corrupt") = Some (LogPageFailed 1 "corrupt") ∧
  console run_again_failed = [LogPageFailed 1 "corrupt"] ∧
  (0 ∉ loadingQueue run_again_failed) ∧
  pages run_again_failed !! 0 = Some "blob:p0"%string ∧
  ¬ (pages run_again_failed !! 0 = None).
Proof.
  split; [apply run_again_failed_reachable|].
  split; [reflexivity|]. split; [reflexivity|]. split; [reflexivity|].
  split; [reflexivity|]. split; [vm_compute; set_solver|].
  split; [reflexivity|]. discriminate.
Qed.

(** ** C7: the document does not open *)

Lemma load_error_message_truthy err : truthy (load_error_message err) = true.
Proof. unfold load_error_message. destruct err; reflexivity. Qed.

Lemma preloadPagesAround_guard c cur prio st :
  pdfRef st = None ∨ c_pageCount c = 0 → preloadPagesAround c cur prio st = st.
Proof. intros Hg. unfold preloadPagesAround. by rewrite decide_True. Qed.

Lemma failed_to_open_step msg st st' :
  truthy msg = true → failed_to_open msg st → step st st' → failed_to_open msg st'.
Proof.
  intros Hmsg (Hpdf & Hpc & Ht & Hg & Hp & Hq & Hl & Hld & He) Hstep.
  inversion Hstep as
    [s n Hm Hr|s t1 t2 i Hts|s t1 t2 i cl k o Hts|s t1 t2 cur c Hts
    |s t1 t2 o Hts|s t1 t2 o Hts|s t1 t2 n o Hts|s t1 t2 Hts|s Hm|s Hm]; subst;
    try (rewrite Ht in Hts; by destruct t1).
  - unfold render in Hr. rewrite Hld, He, Hmsg in Hr. discriminate.
  - unfold failed_to_open, unmount. simpl. by rewrite Hp.
  - unfold failed_to_open, commit. destruct (shown st); simpl; by rewrite ?Hp.
Qed.

Lemma failed_to_open_rtc msg st st' :
  truthy msg = true → failed_to_open msg st → rtc step st st' → failed_to_open msg st'.
Proof.
  intros Hmsg Hf Hrtc. induction Hrtc as [|x y z Hxy _ IH]; [done|].
  apply IH. by eapply failed_to_open_step.
Qed.

(** C7. When [getDocument] fails, the component shows the error view with
    the error message (a fallback text when there is none); from then on no
    task is ever pending, no [getPage] call is made, nothing is cached or
    marked as loading, and the error view stays; and any call of
    [preloadPagesAround] without a document handle, or from a closure whose
    [pageCount] is 0, returns without doing anything. *)
Theorem C7_load_error_is_fatal (err : string) :
  let st := init_opened (LoadError err) (set_tasks [] mount) in
  step mount st ∧
  render st = ErrorView (load_error_message err) ∧
  console st = [LogPdfError err] ∧
  (∀ st', rtc step st st' →
     pdfRef st' = None ∧ pageCount st' = 0 ∧ tasks st' = [] ∧
     getPageCalls st' = [] ∧ pages st' = ∅ ∧ loadingQueue st' = ∅ ∧
     render st' = ErrorView (load_error_message err)) ∧
  (∀ c currentIndex priority s,
     pdfRef s = None ∨ c_pageCount c = 0 →
     preloadPagesAround c currentIndex priority s = s).
Proof.
  intros st.
  pose proof (load_error_message_truthy err) as Hmsg.
  split; [apply (step_init_open mount [] [] (LoadError err)); reflexivity|].
  split; [unfold st, render; simpl; by rewrite Hmsg|].
  split; [reflexivity|].
  split; [|intros; by apply preloadPagesAround_guard].
  intros st' Hrtc.
  assert (Hf : failed_to_open (load_error_message err) st) by (repeat split).
  destruct (failed_to_open_rtc _ _ _ Hmsg Hf Hrtc)
    as (Hpdf & Hpc & Ht & Hg & Hp & Hq & Hl & Hld & He).
  repeat split; try done.
  unfold render. by rewrite Hld, He, Hmsg.
Qed.

(** ** C8: the order of a navigation *)

Lemma foreground_loop_started l st :
  foreground_loop l st = st ∨
  ∃ idx rest, (idx ∉ loadingQueue st) ∧
              foreground_loop l st = loadPage_call idx (Some rest) (mark idx st).
Proof.
  induction l as [|idx rest IH]; simpl; [by left|].
  case_decide; [exact IH|]. right. by exists idx, rest.
Qed.

Lemma loadPage_call_tasks idx k st :
  ∃ called, tasks (loadPage_call idx k st) = tasks st ++ [Await idx called k].
Proof. unfold loadPage_call. destruct (pdfRef st); simpl; eauto. Qed.

(** C8, as the code has it.  [handlePageChange] sets the current page, runs
    the foreground pass up to its first suspension (at most one [loadPage] is
    started, and it is not awaited by the handler), and then registers the
    timer of the background pass behind whatever the foreground pass
    started.  The handler itself defers no load: the background pass runs
    when the timer fires, which is a later transition.  When the document is
    open and the new page is not in flight, its [getPage] call has been made
    by the time the timer is registered. *)
Theorem C8_navigation_triggers_foreground_then_timer
    (c : closure) (newPage : Z) (st : state) :
  let fg := preloadPagesAround c newPage true (set_currentPage newPage st) in
  let st' := handlePageChange c newPage st in
  currentPage st' = newPage ∧
  tasks st' = tasks fg ++ [Timer newPage c] ∧
  (tasks fg = tasks st ∨
   ∃ idx called rest, tasks fg = tasks st ++ [Await idx called (Some rest)]) ∧
  filter is_Idle (tasks st') = filter is_Idle (tasks st) ∧
  pages st' = pages st ∧
  step st' (preloadPagesAround c newPage false (set_tasks (tasks fg) st')) ∧
  (pdfRef st ≠ None → c_pageCount c ≠ 0 → newPage ∉ loadingQueue st →
     getPageCalls st' = getPageCalls st ++ [newPage + 1] ∧
     newPage ∈ loadingQueue st').
Proof.
  intros fg st'.
  assert (Hfg : fg = set_currentPage newPage st ∨
                ∃ idx rest, (idx ∉ loadingQueue st) ∧
                  fg = loadPage_call idx (Some rest) (mark idx (set_currentPage newPage st))).
  { unfold fg, preloadPagesAround. case_decide; [by left|].
    apply (foreground_loop_started _ (set_currentPage newPage st)). }
  assert (Hcur : currentPage fg = newPage).
  { destruct Hfg as [->|(idx & rest & _ & ->)]; [done|].
    unfold loadPage_call. by destruct (pdfRef _). }
  assert (Htasks : tasks fg = tasks st ∨
            ∃ idx called rest, tasks fg = tasks st ++ [Await idx called (Some rest)]).
  { destruct Hfg as [->|(idx & rest & _ & ->)]; [by left|]. right.
    destruct (loadPage_call_tasks idx (Some rest) (mark idx (set_currentPage newPage st)))
      as [called Hc].
    exists idx, called, rest. by rewrite Hc. }
  split; [exact Hcur|]. split; [done|]. split; [exact Htasks|].
  split.
  { unfold st', handlePageChange. fold fg. simpl. rewrite filter_app. simpl.
    rewrite app_nil_r.
    destruct Htasks as [->|(idx & called & rest & ->)]; [done|].
    rewrite filter_app. simpl. by rewrite app_nil_r. }
  split; [unfold st', handlePageChange; simpl; by rewrite preloadPagesAround_pages|].
  split.
  { pose proof (step_timer st' (tasks fg) [] newPage c eq_refl) as Hstep.
    by rewrite app_nil_r in Hstep. }
  intros Hpdf Hpc Hq.
  unfold st', handlePageChange. fold fg. simpl.
  unfold fg, preloadPagesAround.
  rewrite decide_False by (simpl; intros [?|?]; done).
  rewrite foreground_batch. simpl.
  rewrite decide_False by done.
  unfold loadPage_call. simpl. destruct (pdfRef st); [|done].
  simpl. split; [done|set_solver].
Qed.

(** C8 as stated fails: the handler does not wait for the foreground pass.
    Right after a turn to page 0 of a ten-page document with nothing cached,
    the render of page 0 is still awaited (and page 1 not yet requested)
    while the timer of the background pass is already registered; the timer
    may fire in that state, and the background pass then defers the loads of
    1, 2 and 3 before the foreground pass has finished. *)
Lemma C8_timer_registered_while_foreground_pending :
  tasks (handlePageChange (closure_of (showing ∅)) 0 (showing ∅))
    = [Await 0 true (Some [1]); Timer 0 (closure_of (showing ∅))] ∧
  ¬ (background_scheduled (handlePageChange (closure_of (showing ∅)) 0 (showing ∅)) →
     ¬ foreground_pending (handlePageChange (closure_of (showing ∅)) 0 (showing ∅))) ∧
  step (handlePageChange (closure_of (showing ∅)) 0 (showing ∅))
       (preloadPagesAround (closure_of (showing ∅)) 0 false
          (set_tasks [Await 0 true (Some [1])]
             (handlePageChange (closure_of (showing ∅)) 0 (showing ∅)))) ∧
  tasks (preloadPagesAround (closure_of (showing ∅)) 0 false
          (set_tasks [Await 0 true (Some [1])]
             (handlePageChange (closure_of (showing ∅)) 0 (showing ∅))))
    = [Await 0 true (Some [1]); Idle 1; Idle 2; Idle 3].
Proof.
  split; [reflexivity|]. split; [|split; [|vm_compute; reflexivity]].
  - intros Hclaim. apply Hclaim.
    + exists 0, (closure_of (showing ∅)). right. left.
    + exists 0, true, [1]. left.
  - apply (step_timer _ [Await 0 true (Some [1])] [] 0 (closure_of (showing ∅))).
    reflexivity.
Qed.

(** ** C6: unmounting *)

(** The cleanup revokes every blob URL of the cache it closes over. *)
Lemma blob_urls_elem_of (p : gmap Z string) (d : string) :
  d ∈ blob_urls p ↔ startsWith d "blob:" = true ∧ ∃ idx, p !! idx = Some d.
Proof.
  unfold blob_urls. rewrite elem_of_list_to_set, list_elem_of_filter, list_elem_of_fmap.
  split.
  - intros [Hb ([idx d'] & -> & Hin)]. apply elem_of_map_to_list in Hin. eauto.
  - intros [Hb [idx Hidx]]. split; [done|]. exists (idx, d). split; [done|].
    by apply elem_of_map_to_list.
Qed.

Lemma unmount_releases_cached st idx d :
  committed st !! idx = Some d → startsWith d "blob:" = true → d ∈ revoked (unmount st).
Proof.
  intros Hp Hb. unfold unmount, revoke_cleanup. simpl.
  apply elem_of_union. right. apply blob_urls_elem_of. eauto.
Qed.

(** The loops revoke nothing and write no record. *)
Lemma foreground_loop_settled l st : settled st (foreground_loop l st).
Proof.
  revert st. induction l as [|idx rest IH]; intros st; simpl; [done|].
  case_decide; [apply IH|]. unfold loadPage_call. by destruct (pdfRef _).
Qed.

Lemma background_loop_settled l st : settled st (background_loop l st).
Proof.
  revert st. induction l as [|idx rest IH]; intros st; simpl; [done|].
  case_decide; [apply IH|].
  destruct (IH (push (Idle idx) (mark idx st))) as [H1 H2].
  split; [rewrite H1|rewrite H2]; done.
Qed.

Lemma preloadPagesAround_settled c cur prio st :
  settled st (preloadPagesAround c cur prio st).
Proof.
  unfold preloadPagesAround. case_decide; [done|].
  destruct prio; [apply foreground_loop_settled|apply background_loop_settled].
Qed.

Lemma foreground_loop_same_cache l st : same_cache st (foreground_loop l st).
Proof.
  revert st. induction l as [|idx rest IH]; intros st; simpl; [done|].
  case_decide; [apply IH|]. unfold loadPage_call. by destruct (pdfRef _).
Qed.

Lemma background_loop_same_cache l st : same_cache st (background_loop l st).
Proof.
  revert st. induction l as [|idx rest IH]; intros st; simpl; [done|].
  case_decide; [apply IH|].
  destruct (IH (push (Idle idx) (mark idx st))) as [H1 H2].
  split; [rewrite H1|rewrite H2]; done.
Qed.

Lemma preloadPagesAround_same_cache c cur prio st :
  same_cache st (preloadPagesAround c cur prio st).
Proof.
  unfold preloadPagesAround. case_decide; [done|].
  destruct prio; [apply foreground_loop_same_cache|apply background_loop_same_cache].
Qed.

(** A render that settles revokes nothing; on the unmounted component it
    stores nothing either. *)
Lemma resume_loadPage_settled idx called k o st :
  settled st (resume_loadPage idx called k o st).
Proof.
  unfold resume_loadPage.
  destruct (loadPage_total idx called o st) as (st' & -> & _ & _ & _ & _ & _ & Hm' & Hr & _).
  destruct k as [rest|]; [|done].
  destruct (foreground_loop_settled rest st') as [H1 H2].
  split; [rewrite H1|rewrite H2]; done.
Qed.

Lemma resume_loadPage_discarded idx called k o st :
  mounted st = false → same_cache st (resume_loadPage idx called k o st).
Proof.
  intros Hm. unfold resume_loadPage.
  destruct (loadPage_total idx called o st)
    as (st' & -> & _ & _ & _ & _ & _ & _ & _ & Hc & _).
  destruct (Hc Hm) as [Hp Hs].
  destruct k as [rest|]; [|done].
  destruct (foreground_loop_same_cache rest st') as [H1 H2].
  split; [rewrite H1|rewrite H2]; done.
Qed.

Lemma init_catch_settled err st : settled st (init_catch err st).
Proof. unfold init_catch. by destruct (cancelled st). Qed.

Lemma init_catch_same_cache err st : same_cache st (init_catch err st).
Proof. unfold init_catch. by destruct (cancelled st). Qed.

Lemma init_page_settled n o st : settled st (init_page n o st).
Proof.
  unfold init_page, setPages.
  destruct o as [d|err|err]; simpl.
  - destruct (negb (cancelled st) && truthy d), (mounted st) eqn:Hm; case_decide; done.
  - case_decide; done.
  - apply (init_catch_settled err st).
Qed.

Lemma init_page_discarded n o st :
  mounted st = false → same_cache st (init_page n o st).
Proof.
  intros Hm. unfold init_page, setPages.
  destruct o as [d|err|err]; simpl.
  - destruct (negb (cancelled st) && truthy d); rewrite ?Hm; case_decide; done.
  - case_decide; done.
  - apply (init_catch_same_cache err st).
Qed.

(** Once unmounted, nothing is revoked and nothing is stored any more. *)
Lemma unmounted_step st st' :
  mounted st = false → step st st' → settled st st' ∧ same_cache st st'.
Proof.
  intros Hm Hstep.
  inversion Hstep as
    [s n Hm' Hr|s t1 t2 i Hts|s t1 t2 i cl k o Hts|s t1 t2 cur c Hts
    |s t1 t2 o Hts|s t1 t2 o Hts|s t1 t2 n o Hts|s t1 t2 Hts|s Hm'|s Hm']; subst;
    try congruence.
  - unfold loadPage_call. by destruct (pdfRef _).
  - split; [apply (resume_loadPage_settled i cl k o (set_tasks (t1 ++ t2) st))|].
    by apply (resume_loadPage_discarded i cl k o (set_tasks (t1 ++ t2) st)).
  - split; [apply (preloadPagesAround_settled c cur false (set_tasks (t1 ++ t2) st))|].
    apply (preloadPagesAround_same_cache c cur false (set_tasks (t1 ++ t2) st)).
  - destruct o; simpl; [by destruct (cancelled st)|].
    split; [apply (init_catch_settled err (set_tasks (t1 ++ t2) st))|].
    apply (init_catch_same_cache err (set_tasks (t1 ++ t2) st)).
  - destruct o; simpl; [done|].
    split; [apply (init_catch_settled err (set_tasks (t1 ++ t2) st))|].
    apply (init_catch_same_cache err (set_tasks (t1 ++ t2) st)).
  - split; [apply (init_page_settled n o (set_tasks (t1 ++ t2) st))|].
    by apply (init_page_discarded n o (set_tasks (t1 ++ t2) st)).
  - unfold init_timer. simpl. destruct (cancelled st); [done|].
    split; [apply (preloadPagesAround_settled first_render 0 false (set_tasks (t1 ++ t2) st))|].
    apply (preloadPagesAround_same_cache first_render 0 false (set_tasks (t1 ++ t2) st)).
Qed.

Lemma unmounted_rtc st st' :
  mounted st = false → rtc step st st' → settled st st' ∧ same_cache st st'.
Proof.
  intros Hm Hrtc. induction Hrtc as [|x y z Hxy _ IH]; [done|].
  destruct (unmounted_step x y Hm Hxy) as [[Hm' Hr'] [Hp' Hs']].
  destruct IH as [[H1 H2] [H3 H4]]; [congruence|].
  split; split; congruence.
Qed.

Lemma run_late_reachable : reachable run_late.
Proof.
  eapply rtc_r; [eapply rtc_r; [apply run_turned_reachable|]|].
  - apply (step_unmount run_turned); reflexivity.
  - apply (step_await run_unmounted [InitTimer] [Timer 2 (closure_of run_shown)]
             2 true (Some [3]) (Rendered "blob:p2")).
    reflexivity.
Qed.



(** What the unmount does not stop.  In the run [run_late] the component is
    unmounted while the render of index 2 is awaited.  When that render
    completes, its payload is not cached, but the blob URL it made is never
    revoked, whatever happens afterwards, and the loop of the pass goes on
    to call [getPage] for index 3. *)
Example late_render_after_unmount :
  reachable run_late ∧
  mounted run_unmounted = false ∧
  Await 2 true (Some [3]) ∈ tasks run_unmounted ∧
  pages run_late = pages run_unmounted ∧
  pages run_late !! 2 = None ∧
  getPageCalls run_late = getPageCalls run_unmounted ++ [4] ∧
  (∀ st', rtc step run_late st' → "blob:p2"%string ∉ revoked st').
Proof.
  split; [apply run_late_reachable|]. split; [reflexivity|].
  split; [right; left|].
  split; [reflexivity|]. split; [reflexivity|]. split; [reflexivity|].
  intros st' Hrtc.
  destruct (unmounted_rtc run_late st' eq_refl Hrtc) as [[_ ->] _].
  vm_compute. set_solver.
Qed.

(** ** Scripts are runs of the event loop *)

Lemma take_task_split {A} (sel : task → option A) ts t1 a t2 :
  take_task sel ts = Some (t1, a, t2) →
  ∃ t, sel t = Some a ∧ ts = t1 ++ t :: t2.
Proof.
  revert t1. induction ts as [|t ts IH]; intros t1 Hts; simpl in Hts; [done|].
  destruct (sel t) as [a'|] eqn:Hsel.
  - inversion Hts; subst. by exists t.
  - destruct (take_task sel ts) as [[[b a'] r]|]; [|done].
    inversion Hts; subst. destruct (IH b eq_refl) as (t' & Ht' & ->).
    by exists t'.
Qed.

Lemma perform_step e st st' : perform e st = Some st' → step st st'.
Proof.
  destruct e as [newPage|idx|idx o|cur| |]; simpl; intros Hp.
  - case_decide as Hd; [|done]. destruct Hd. inversion Hp; subst. by constructor.
  - destruct (take_task _ _) as [[[t1 []] t2]|] eqn:Ht; [|done].
    apply take_task_split in Ht as (t & Hsel & Hts). inversion Hp; subst.
    destruct t; simpl in Hsel; try done. case_decide; [subst|done].
    by apply step_idle.
  - destruct (take_task _ _) as [[[t1 [called k]] t2]|] eqn:Ht; [|done].
    apply take_task_split in Ht as (t & Hsel & Hts). inversion Hp; subst.
    destruct t; simpl in Hsel; try done. case_decide; [subst|done].
    inversion Hsel; subst. by apply step_await.
  - destruct (take_task _ _) as [[[t1 c] t2]|] eqn:Ht; [|done].
    apply take_task_split in Ht as (t & Hsel & Hts). inversion Hp; subst.
    destruct t; simpl in Hsel; try done. case_decide; [subst|done].
    inversion Hsel; subst. by apply step_timer.
  - case_decide; [|done]. inversion Hp; subst. by constructor.
  - case_decide; [|done]. inversion Hp; subst. by constructor.
Qed.

Lemma run_steps es st st' : run es st = Some st' → rtc step st st'.
Proof.
  revert st. induction es as [|e es IH]; intros st Hr; simpl in Hr.
  - inversion Hr. apply rtc_refl.
  - destruct (perform e st) as [st1|] eqn:Hp; [|done].
    eapply rtc_l; [by apply perform_step in Hp|by apply IH].
Qed.

Lemma run_default es st d : is_Some (run es st) → run es st = Some (default d (run es st)).
Proof. intros [s ->]. reflexivity. Qed.

(** ** C4: turning to the first page of a ten-page document *)

(** C4. Ten pages, nothing cached, every render succeeds.  After the turn
    to index 0 and the two renders of the foreground pass the cache holds
    exactly the indices 0 and 1 and nothing is in flight.  When the timer of
    the background pass has fired and all the loads it deferred have
    completed, the cache holds exactly the indices 0, 1, 2 and 3: index 4 is
    not rendered. *)
Theorem C4_turn_to_first_page (d0 d1 e0 e1 d2 d3 : string) :
  truthy d0 = true → truthy d1 = true → truthy e0 = true → truthy e1 = true →
  truthy d2 = true → truthy d3 = true →
  ∃ s_fg s_bg,
    run [Navigate 0; Settle 0 (Rendered d0); Settle 1 (Rendered d1)] (showing ∅)
      = Some s_fg ∧
    dom (pages s_fg) = {[0; 1]} ∧
    loadingQueue s_fg = ∅ ∧
    tasks s_fg = [Timer 0 (closure_of (showing ∅))] ∧
    run [Fire 0; RunIdle 0; RunIdle 1; RunIdle 2; RunIdle 3;
         Settle 0 (Rendered e0); Settle 1 (Rendered e1);
         Settle 2 (Rendered d2); Settle 3 (Rendered d3)] s_fg
      = Some s_bg ∧
    dom (pages s_bg) = {[0; 1; 2; 3]} ∧
    pages s_bg !! 4 = None ∧
    tasks s_bg = [] ∧
    getPageCalls s_bg = [1; 2; 1; 2; 3; 4] ∧
    rtc step (showing ∅) s_bg.
Proof.
  intros H0 H1 H0' H1' H2 H3.
  destruct d0 as [|a0 d0]; [done|]. destruct d1 as [|a1 d1]; [done|].
  destruct e0 as [|b0 e0]; [done|]. destruct e1 as [|b1 e1]; [done|].
  destruct d2 as [|a2 d2]; [done|]. destruct d3 as [|a3 d3]; [done|].
  clear.
  set (es1 := [Navigate 0; Settle 0 (Rendered (String a0 d0));
               Settle 1 (Rendered (String a1 d1))]).
  set (es2 := [Fire 0; RunIdle 0; RunIdle 1; RunIdle 2; RunIdle 3;
               Settle 0 (Rendered (String b0 e0)); Settle 1 (Rendered (String b1 e1));
               Settle 2 (Rendered (String a2 d2)); Settle 3 (Rendered (String a3 d3))]).
  set (s_fg := default (showing ∅) (run es1 (showing ∅))).
  set (s_bg := default (showing ∅) (run es2 s_fg)).
  assert (Hfg : run es1 (showing ∅) = Some s_fg).
  { apply run_default. apply is_Some_alt. vm_compute. exact I. }
  assert (Hbg : run es2 s_fg = Some s_bg).
  { apply run_default. apply is_Some_alt. vm_compute. exact I. }
  exists s_fg, s_bg.
  split; [exact Hfg|]. split; [vm_compute; reflexivity|].
  split; [vm_compute; reflexivity|]. split; [vm_compute; reflexivity|].
  split; [exact Hbg|]. split; [vm_compute; reflexivity|].
  split; [vm_compute; reflexivity|]. split; [vm_compute; reflexivity|].
  split; [vm_compute; reflexivity|].
  etrans; eapply run_steps; eassumption.
Qed.

Lemma C4_turn_to_first_page_witness :
  ∃ s_fg s_bg,
    run [Navigate 0; Settle 0 (Rendered "data:0"); Settle 1 (Rendered "data:1")]
        (showing ∅) = Some s_fg ∧
    dom (pages s_fg) = {[0; 1]} ∧
    loadingQueue s_fg = ∅ ∧
    tasks s_fg = [Timer 0 (closure_of (showing ∅))] ∧
    run [Fire 0; RunIdle 0; RunIdle 1; RunIdle 2; RunIdle 3;
         Settle 0 (Rendered "data:0"); Settle 1 (Rendered "data:1");
         Settle 2 (Rendered "data:2"); Settle 3 (Rendered "data:3")] s_fg
      = Some s_bg ∧
    dom (pages s_bg) = {[0; 1; 2; 3]} ∧
    pages s_bg !! 4 = None ∧
    tasks s_bg = [] ∧
    getPageCalls s_bg = [1; 2; 1; 2; 3; 4] ∧
    rtc step (showing ∅) s_bg.
Proof.
  apply (C4_turn_to_first_page "data:0" "data:1" "data:0" "data:1" "data:2" "data:3");
    reflexivity.
Defined.

(** The same turn when the first two pages are already cached, as [init]
    leaves them: the foreground pass renders 0 and 1 again, the background
    pass asks for 2 and 3 only. *)
Example turn_to_first_page_after_init :
  ∃ s,
    run [Navigate 0; Settle 0 (Rendered "data:0"); Settle 1 (Rendered "data:1");
         Fire 0; RunIdle 2; RunIdle 3;
         Settle 2 (Rendered "data:2"); Settle 3 (Rendered "data:3")]
        run_second = Some s ∧
    dom (pages s) = {[0; 1; 2; 3]} ∧
    getPageCalls s = [1; 2; 1; 2; 3; 4] ∧
    pages s !! 0 = Some "data:0"%string.
Proof.
  eexists. split; [apply (run_default _ _ run_second), is_Some_alt; vm_compute; exact I|].
  repeat split; vm_compute; reflexivity.
Qed.

(** The render of index 4 fails in the foreground pass of a turn to page 4:
    no entry for 4, nothing in flight, one console line.  The background
    pass of the same turn requests index 4 again, and this time it is
    cached. *)
Example render_of_4_fails_then_retried :
  ∃ s1 s2,
    run [Navigate 4; Settle 4 (RenderError "corrupt"); Settle 5 (Rendered "data:5")]
        (showing ∅) = Some s1 ∧
    dom (pages s1) = {[5]} ∧
    pages s1 !! 4 = None ∧
    loadingQueue s1 = ∅ ∧
    console s1 = [LogPageFailed 5 "corrupt"] ∧
    run [Fire 4; RunIdle 4; Settle 4 (Rendered "data:4")] s1 = Some s2 ∧
    pages s2 !! 4 = Some "data:4"%string.
Proof.
  eexists. eexists.
  split; [apply (run_default _ _ (showing ∅)), is_Some_alt; vm_compute; exact I|].
  split; [vm_compute; reflexivity|]. split; [vm_compute; reflexivity|].
  split; [vm_compute; reflexivity|]. split; [vm_compute; reflexivity|].
  split; [apply (run_default _ _ (showing ∅)), is_Some_alt; vm_compute; exact I|].
  vm_compute; reflexivity.
Qed.

(** The queue is tested when the loop reaches an index, not when the pass is
    issued.  A turn to index 1 starts its render; a turn to index 0 follows
    while index 1 is in flight, and starts the render of index 0.  The
    render of index 1 settles first and is cached; when the render of
    index 0 settles, the second pass goes on to index 1, which is in flight
    no more: [getPage(2)] is called a second time and the record of index 1
    is replaced. *)
Example foreground_pass_resumed_after_settle :
  ∃ s1 s2,
    run [Navigate 1; Navigate 0] (showing ∅) = Some s1 ∧
    1 ∈ loadingQueue s1 ∧
    getPageCalls s1 = [2; 1] ∧
    run [Settle 1 (Rendered "data:first"); Settle 0 (Rendered "data:0");
         Settle 1 (Rendered "data:again")] s1 = Some s2 ∧
    getPageCalls s2 = [2; 1; 3; 2] ∧
    pages s2 !! 1 = Some "data:again"%string.
Proof.
  eexists. eexists.
  split; [apply (run_default _ _ (showing ∅)), is_Some_alt; vm_compute; exact I|].
  split; [apply (bool_decide_unpack _); vm_compute; exact I|].
  split; [vm_compute; reflexivity|].
  split; [apply (run_default _ _ (showing ∅)), is_Some_alt; vm_compute; exact I|].
  split; vm_compute; reflexivity.
Qed.

End Book1_Spec.

(** * Properties of PortfolioBook.jsx *)
Module Book_Spec.
Import Book.

Lemma loadPageImage_split d n st :
  loadPageImage (Some d) n st =
    (st, match page_canvas d n with
         | Normal (width, height) =>
             Normal [left_half n width height; right_half n width height]
         | Throw e => Throw e
         end).
Proof.
  unfold loadPageImage. destruct (page_canvas d n) as [[w h]|e]; reflexivity.
Qed.

Lemma preload_one_stores d c idx s width height :
  pdfRef s = Some d → 0 ≤ idx < c_pageCount c → c_pages c !! idx = None →
  page_canvas d (idx / 2 + 1) = Normal (width, height) →
  preload_one c idx s =
    (set_pages (<[idx := if Z.even idx then left_half (idx / 2 + 1) width height
                         else right_half (idx / 2 + 1) width height]> (pages s)) s,
     Normal tt).
Proof.
  intros Hs Hb Hc Hcv. unfold preload_one.
  rewrite decide_False by lia. rewrite Hc.
  unfold mbind, M_bind, SPLIT_PAGES. cbv beta iota.
  rewrite Hs, loadPageImage_split, Hcv. simpl.
  assert (Hrem : Z.rem idx 2 = 0 ∧ Z.even idx = true ∨ Z.rem idx 2 = 1 ∧ Z.even idx = false).
  { rewrite Z.rem_mod_nonneg by lia.
    rewrite (Zmod_even idx). destruct (Z.even idx); auto. }
  unfold at_index. destruct Hrem as [[-> ->]|[-> ->]]; reflexivity.
Qed.

(** What one turn of the loop does to the slot it visits. *)
Lemma preload_one_pages d c idx st :
  pdfRef st = Some d →
  pdfRef (fst (preload_one c idx st)) = Some d ∧
  (pages (fst (preload_one c idx st)) = pages st ∨
   (0 ≤ idx < c_pageCount c ∧ c_pages c !! idx = None ∧
    ∃ img, half_of d idx = Some img ∧
           pages (fst (preload_one c idx st)) = <[idx := img]> (pages st))).
Proof.
  intros Hpdf.
  destruct (decide (idx < 0 ∨ c_pageCount c ≤ idx)) as [Hb|Hb].
  { unfold preload_one. rewrite decide_True by done. by split; [|left]. }
  destruct (c_pages c !! idx) as [u|] eqn:Hc.
  { unfold preload_one. rewrite decide_False by done. rewrite Hc. by split; [|left]. }
  destruct (page_canvas d (idx / 2 + 1)) as [[w h]|e] eqn:Hcv.
  - rewrite (preload_one_stores d c idx st w h) by (try done; lia). simpl.
    split; [done|]. right. split; [lia|]. split; [done|].
    unfold half_of. rewrite Hcv. eauto.
  - assert (Hthrow : preload_one c idx st = (st, Throw e)).
    { unfold preload_one. rewrite decide_False by done. rewrite Hc.
      unfold mbind, M_bind, SPLIT_PAGES. cbv beta iota.
      by rewrite Hpdf, loadPageImage_split, Hcv. }
    rewrite Hthrow. by split; [|left].
Qed.

Lemma preload_one_mapped d c idx st :
  pdfRef st = Some d → split_mapped d (pages st) →
  pdfRef (fst (preload_one c idx st)) = Some d ∧
  split_mapped d (pages (fst (preload_one c idx st))).
Proof.
  intros Hpdf Hm.
  destruct (preload_one_pages d c idx st Hpdf) as [Hpdf' [->|(Hb & _ & img & Himg & ->)]];
    [done|].
  split; [done|]. intros i u Hu.
  destruct (decide (i = idx)) as [->|Hne].
  - rewrite lookup_insert_eq in Hu. inversion Hu; subst. split; [lia|done].
  - rewrite lookup_insert_ne in Hu by done. by apply Hm.
Qed.

Lemma bind_fst {A B} (m : M state A) (f : A → M state B) st :
  fst ((m ≫= f) st) = match m st with
                       | (s', Normal a) => fst (f a s')
                       | (s', Throw _) => s'
                       end.
Proof. unfold mbind, M_bind. destruct (m st) as [s' [a|e]]; reflexivity. Qed.

Lemma preloadPagesAround_mapped d c cur st :
  pdfRef st = Some d → split_mapped d (pages st) →
  pdfRef (fst (preloadPagesAround c cur st)) = Some d ∧
  split_mapped d (pages (fst (preloadPagesAround c cur st))).
Proof.
  intros Hpdf Hm. unfold preloadPagesAround. rewrite Hpdf.
  rewrite bind_fst.
  destruct (preload_one_mapped d c cur st Hpdf Hm) as [Hp1 Hm1].
  destruct (preload_one c cur st) as [s1 [[]|e]]; simpl in *; [|done].
  rewrite bind_fst.
  destruct (preload_one_mapped d c (cur + 1) s1 Hp1 Hm1) as [Hp2 Hm2].
  destruct (preload_one c (cur + 1) s1) as [s2 [[]|e]]; simpl in *; [|done].
  by apply preload_one_mapped.
Qed.

Lemma preload_one_pageCount c idx st :
  pageCount (fst (preload_one c idx st)) = pageCount st.
Proof.
  unfold preload_one. case_decide; [done|].
  destruct (c_pages c !! idx); [done|].
  rewrite bind_fst. unfold loadPageImage.
  destruct (pdfRef st) as [d|]; [|done].
  destruct (page_canvas d _) as [[w h]|e]; done.
Qed.

Lemma preloadPagesAround_pageCount c cur st :
  pageCount (fst (preloadPagesAround c cur st)) = pageCount st.
Proof.
  unfold preloadPagesAround. destruct (pdfRef st); [|done].
  rewrite bind_fst.
  pose proof (preload_one_pageCount c cur st) as H1.
  destruct (preload_one c cur st) as [s1 [[]|e]]; simpl in *; [|done].
  rewrite bind_fst.
  pose proof (preload_one_pageCount c (cur + 1) s1) as H2.
  destruct (preload_one c (cur + 1) s1) as [s2 [[]|e]]; simpl in *; [|congruence].
  rewrite preload_one_pageCount. congruence.
Qed.

Lemma preload_one_error c idx st :
  error (fst (preload_one c idx st)) = error st.
Proof.
  unfold preload_one. case_decide; [done|].
  destruct (c_pages c !! idx); [done|].
  rewrite bind_fst. unfold loadPageImage.
  destruct (pdfRef st) as [d|]; [|done].
  destruct (page_canvas d _) as [[w h]|e]; done.
Qed.

Lemma preload_error c cur st :
  error (fst (preloadPagesAround c cur st)) = error st.
Proof.
  unfold preloadPagesAround. destruct (pdfRef st); [|done].
  rewrite bind_fst.
  pose proof (preload_one_error c cur st) as H1.
  destruct (preload_one c cur st) as [s1 [[]|e]]; simpl in *; [|done].
  rewrite bind_fst.
  pose proof (preload_one_error c (cur + 1) s1) as H2.
  destruct (preload_one c (cur + 1) s1) as [s2 [[]|e]]; simpl in *; [|congruence].
  rewrite preload_one_error. congruence.
Qed.

(** [init] with a document that opened. *)
Lemma init_opened d c cancelled st :
  split_mapped d (pages st) →
  let st' := init c cancelled (Opened d) st in
  pageCount st' = numPages d * 2 ∧ pdfRef st' = Some d ∧ split_mapped d (pages st').
Proof.
  intros Hm. unfold init, try_catch.
  set (st2 := set_pageCount (numPages d * 2) (set_pdfRef (Some d) st)).
  assert (Hpc : pageCount (fst (preloadPagesAround c 0 st2)) = numPages d * 2)
    by apply preloadPagesAround_pageCount.
  destruct (preloadPagesAround_mapped d c 0 st2 eq_refl Hm) as [Hpdf Hmap].
  unfold mbind, M_bind, mret, M_ret, modify. simpl. fold st2.
  destruct (preloadPagesAround c 0 st2) as [s3 [[]|e]]; simpl in *; [done|].
  destruct cancelled; done.
Qed.

(** ** C9 *)

(** What [half_of] is, in terms of the canvas of the page. *)
Lemma half_of_canvas d idx width height :
  page_canvas d (idx / 2 + 1) = Normal (width, height) →
  half_of d idx =
    Some {| of_page := idx / 2 + 1;
            sx := if Z.even idx then 0 else width / 2;
            sw := if Z.even idx then width / 2 else width - width / 2;
            sh := height |}.
Proof. intros Hcv. unfold half_of. rewrite Hcv. by destruct (Z.even idx). Qed.

(** One turn of the loop on a slot whose page renders, if it has to be
    loaded: the turn completes, the slot holds its half, and no other slot
    is touched. *)
Lemma preload_one_completes d c idx st :
  pdfRef st = Some d →
  (0 ≤ idx < c_pageCount c → c_pages c !! idx = None → is_Some (half_of d idx)) →
  ∃ st', preload_one c idx st = (st', Normal tt) ∧ pdfRef st' = Some d ∧
         (∀ j, j ≠ idx → pages st' !! j = pages st !! j) ∧
         (0 ≤ idx < c_pageCount c → c_pages c !! idx = None →
            pages st' !! idx = half_of d idx).
Proof.
  intros Hpdf Hrenders.
  destruct (decide (idx < 0 ∨ c_pageCount c ≤ idx)) as [Hb|Hb].
  { exists st. unfold preload_one. rewrite decide_True by done.
    repeat split; try done. lia. }
  destruct (c_pages c !! idx) as [u|] eqn:Hc.
  { exists st. unfold preload_one. rewrite decide_False by done. rewrite Hc.
    repeat split; done. }
  destruct (Hrenders ltac:(lia) eq_refl) as [img Himg].
  destruct (page_canvas d (idx / 2 + 1)) as [[w h]|e] eqn:Hcv;
    [|unfold half_of in Himg; by rewrite Hcv in Himg].
  eexists. split; [apply (preload_one_stores d c idx st w h); [done|lia|done|done]|].
  simpl. split; [done|]. split.
  - intros j Hj. by rewrite lookup_insert_ne.
  - intros _ _. rewrite lookup_insert_eq. unfold half_of. by rewrite Hcv.
Qed.

(** A preload whose pages render completes, and every slot of its window
    that had to be loaded holds its half afterwards. *)
Lemma preloadPagesAround_fills d c cur st :
  pdfRef st = Some d →
  (∀ j, cur ≤ j ≤ cur + 2 → 0 ≤ j < c_pageCount c → c_pages c !! j = None →
        is_Some (half_of d j)) →
  ∃ st', preloadPagesAround c cur st = (st', Normal tt) ∧
         ∀ idx, cur ≤ idx ≤ cur + 2 → 0 ≤ idx < c_pageCount c → c_pages c !! idx = None →
                pages st' !! idx = half_of d idx.
Proof.
  intros Hpdf Hrenders. unfold preloadPagesAround. rewrite Hpdf.
  destruct (preload_one_completes d c cur st Hpdf) as (s1 & E1 & P1 & K1 & F1).
  { intros ? ?. apply Hrenders; [lia|done..]. }
  destruct (preload_one_completes d c (cur + 1) s1 P1) as (s2 & E2 & P2 & K2 & F2).
  { intros ? ?. apply Hrenders; [lia|done..]. }
  destruct (preload_one_completes d c (cur + 2) s2 P2) as (s3 & E3 & P3 & K3 & F3).
  { intros ? ?. apply Hrenders; [lia|done..]. }
  exists s3. split.
  { unfold mbind, M_bind. by rewrite E1, E2, E3. }
  intros idx Hidx Hb Hc.
  destruct (decide (idx = cur)) as [->|H0].
  { rewrite K3, K2 by lia. by apply F1. }
  destruct (decide (idx = cur + 1)) as [->|H1].
  { rewrite K3 by lia. by apply F2. }
  assert (idx = cur + 2) as -> by lia. by apply F3.
Qed.

(** C9. With a document [d] opened, the page count is twice the number of
    PDF pages, the slots handed to the flip book are the 2 * numPages
    indices 0 .. 2 * numPages - 1, and every such index belongs to an
    existing PDF page, [idx / 2 + 1].  The image that belongs in slot [idx],
    [half_of d idx], is cut from the rendering of that page: its left half
    when [idx] is even, its right half when [idx] is odd.  Starting from a
    cache in which every slot holds the image that belongs in it (the empty
    cache is one), [init] and every later call of [preloadPagesAround] keep
    it so.  And they do fill the cache: when the pages of the slots to load
    render, the preload of [init] completes (the book is shown, no error is
    set) and each of the slots 0, 1, 2 that is in range and not cached in
    the closure holds the image that belongs in it; likewise, after a flip
    to [currentIndex], for the slots [currentIndex .. currentIndex + 2]. *)
Theorem C9_split_pages_mapping (d : pdf) (c : closure) (cancelled : bool) (st : state) :
  split_mapped d (pages st) →
  let st' := init c cancelled (Opened d) st in
  pageCount st' = 2 * numPages d ∧
  slots st' = seqZ 0 (2 * numPages d) ∧
  length (slots st') = Z.to_nat (2 * numPages d) ∧
  (∀ idx, idx ∈ slots st' ↔ 0 ≤ idx < 2 * numPages d) ∧
  (∀ idx, 0 ≤ idx < 2 * numPages d → 1 ≤ idx / 2 + 1 ≤ numPages d) ∧
  (∀ idx width height,
     page_canvas d (idx / 2 + 1) = Normal (width, height) →
     half_of d idx =
       Some {| of_page := idx / 2 + 1;
               sx := if Z.even idx then 0 else width / 2;
               sw := if Z.even idx then width / 2 else width - width / 2;
               sh := height |}) ∧
  pdfRef st' = Some d ∧
  split_mapped d (pages st') ∧
  ((∀ j, 0 ≤ j ≤ 2 → j < c_pageCount c → c_pages c !! j = None → is_Some (half_of d j)) →
     loading st' = false ∧ error st' = error st ∧
     ∀ idx, 0 ≤ idx ≤ 2 → idx < c_pageCount c → c_pages c !! idx = None →
            pages st' !! idx = half_of d idx) ∧
  (∀ c' currentIndex s,
     pdfRef s = Some d → split_mapped d (pages s) →
     split_mapped d (pages (fst (preloadPagesAround c' currentIndex s)))) ∧
  (∀ c' currentIndex s,
     pdfRef s = Some d →
     (∀ j, currentIndex ≤ j ≤ currentIndex + 2 → 0 ≤ j < c_pageCount c' →
           c_pages c' !! j = None → is_Some (half_of d j)) →
     snd (preloadPagesAround c' currentIndex s) = Normal tt ∧
     ∀ idx, currentIndex ≤ idx ≤ currentIndex + 2 → 0 ≤ idx < c_pageCount c' →
            c_pages c' !! idx = None →
            pages (fst (preloadPagesAround c' currentIndex s)) !! idx = half_of d idx).
Proof.
  intros Hm st'.
  destruct (init_opened d c cancelled st Hm) as (Hpc & Hpdf & Hmap). fold st' in Hpc, Hpdf, Hmap.
  assert (Hpc' : pageCount st' = 2 * numPages d) by lia.
  split; [exact Hpc'|]. split; [unfold slots; by rewrite Hpc'|].
  split; [unfold slots; by rewrite Hpc', length_seqZ|].
  split; [intros idx; unfold slots; rewrite Hpc', elem_of_seqZ; lia|].
  split.
  { intros idx Hidx. split; [pose proof (Z.div_pos idx 2); lia|].
    assert (idx / 2 < numPages d) by (apply Z.div_lt_upper_bound; lia). lia. }
  split; [apply half_of_canvas|].
  split; [exact Hpdf|]. split; [exact Hmap|]. split; [|split].
  - intros Hrenders.
    set (st2 := set_pageCount (numPages d * 2) (set_pdfRef (Some d) st)).
    destruct (preloadPagesAround_fills d c 0 st2 eq_refl) as (s3 & Hrun & Hfill).
    { intros j Hj Hb Hc. apply Hrenders; [lia|lia|done]. }
    assert (Hst' : st' = set_loading false s3).
    { unfold st', init, try_catch. unfold mbind, M_bind, mret, M_ret, modify. simpl.
      fold st2. by rewrite Hrun. }
    assert (Herr : error s3 = error st).
    { pose proof (preload_error c 0 st2) as He. by rewrite Hrun in He. }
    rewrite Hst'. simpl. split; [done|]. split; [exact Herr|].
    intros idx Hidx Hb Hc. apply Hfill; [lia|lia|done].
  - intros c' cur s Hs Hms. by apply preloadPagesAround_mapped.
  - intros c' cur s Hs Hrenders.
    destruct (preloadPagesAround_fills d c' cur s Hs Hrenders) as (s' & -> & Hfill).
    split; [done|exact Hfill].
Qed.

Lemma C9_split_pages_mapping_witness :
  pages (init {| c_pageCount := 6; c_pages := ∅ |} false (Opened doc3) mount) !! 1
    = Some (right_half 1 1201 800) ∧
  pages (fst (preloadPagesAround {| c_pageCount := 6; c_pages := ∅ |} 2
                (set_pdfRef (Some doc3) mount))) !! 2
    = Some (left_half 2 1201 800).
Proof.
  assert (Hempty : split_mapped doc3 (pages mount)).
  { intros idx img Hl. simpl in Hl. by rewrite lookup_empty in Hl. }
  assert (Hrenders : ∀ j, is_Some (half_of doc3 j)) by (intros j; by eexists).
  destruct (C9_split_pages_mapping doc3 {| c_pageCount := 6; c_pages := ∅ |} false mount Hempty)
    as (_ & _ & _ & _ & _ & _ & _ & _ & Hinit & _ & Hflip).
  split.
  - destruct Hinit as (_ & _ & Hfill); [intros; apply Hrenders|].
    apply (Hfill 1); [lia|simpl; lia|reflexivity].
  - destruct (Hflip {| c_pageCount := 6; c_pages := ∅ |} 2 (set_pdfRef (Some doc3) mount)
                eq_refl) as [_ Hfill]; [intros; apply Hrenders|].
    apply (Hfill 2); [lia|simpl; lia|reflexivity].
Defined.

(** ** C10 *)

Lemma clamp_spec (lo hi x : Qc) :
  (lo ≤ hi)%Qc →
  (lo ≤ Math_max lo (Math_min hi x) ≤ hi)%Qc ∧
  ((lo ≤ x ≤ hi)%Qc → Math_max lo (Math_min hi x) = x) ∧
  ((x ≤ lo)%Qc → Math_max lo (Math_min hi x) = lo) ∧
  ((hi ≤ x)%Qc → Math_max lo (Math_min hi x) = hi).
Proof.
  intros Hlh. unfold Math_max, Math_min.
  destruct (decide (hi ≤ x)%Qc) as [Hhx|Hhx].
  - rewrite decide_True by done.
    split; [done|]. split; [intros [? ?]; by apply (anti_symm Qcle)|].
    split; [intros ?; apply (anti_symm Qcle); [by trans x|done]|done].
  - apply Qclt_nge in Hhx. pose proof (Qclt_le_weak _ _ Hhx) as Hxh.
    destruct (decide (lo ≤ x)%Qc) as [Hlx|Hlx].
    + split; [done|]. split; [done|].
      split; [intros ?; by apply (anti_symm Qcle)|].
      intros ?. by apply (anti_symm Qcle).
    + apply Qclt_nge in Hlx. pose proof (Qclt_le_weak _ _ Hlx) as Hxl.
      split; [done|]. split; [intros [? ?]; by apply (anti_symm Qcle)|].
      split; [done|]. intros ?. apply (anti_symm Qcle); [done|by trans x].
Qed.

Lemma clamp_mono (lo hi x y : Qc) :
  (x ≤ y)%Qc → (Math_max lo (Math_min hi x) ≤ Math_max lo (Math_min hi y))%Qc.
Proof.
  intros Hxy. unfold Math_max, Math_min.
  repeat case_decide; try done;
    repeat match goal with H : ¬ (_ ≤ _)%Qc |- _ => apply Qclt_nge, Qclt_le_weak in H end;
    try done.
  all: eauto 6 using Qcle_trans.
Qed.

Lemma Qc_pred_le (x y : Qc) : (x ≤ y)%Qc → (x - 1 ≤ y - 1)%Qc.
Proof. unfold Qcminus. apply Qcplus_le_mono_r. Qed.

Lemma Z2Qc_le (n m : Z) : n ≤ m → (Qc_of_Z n ≤ Qc_of_Z m)%Qc.
Proof. apply Z2Qc_inj_le. Qed.

Lemma Z2Qc_pred (n : Z) : Qc_of_Z (n - 1) = (Qc_of_Z n - 1)%Qc.
Proof. by rewrite Z2Qc_inj_sub, Z2Qc_inj_1. Qed.

(** The target for an integer page number is the integer clamp. *)
Lemma goToPage_integer (n : Z) (st : state) :
  0 < pageCount st → bookRef st = true →
  goToPage (Qc_of_Z n) st = Some (Qc_of_Z (Z.max 0 (Z.min (pageCount st - 1) (n - 1)))).
Proof.
  intros Hpc Href. unfold goToPage. rewrite Href. f_equal.
  assert (Hlh : (0 ≤ Qc_of_Z (pageCount st - 1))%Qc).
  { rewrite <- Z2Qc_inj_0. apply Z2Qc_le. lia. }
  destruct (clamp_spec 0%Qc (Qc_of_Z (pageCount st - 1)) (Qc_of_Z n - 1)%Qc Hlh)
    as (_ & Hin & Hlow & Hhigh).
  rewrite <- Z2Qc_pred in *. rewrite <- Z2Qc_inj_0 in *.
  destruct (decide (n - 1 ≤ 0)) as [Hn|Hn].
  - rewrite Hlow by (by apply Z2Qc_le). f_equal. lia.
  - destruct (decide (pageCount st - 1 ≤ n - 1)) as [Hm|Hm].
    + rewrite Hhigh by (by apply Z2Qc_le). f_equal. lia.
    + rewrite Hin by (split; apply Z2Qc_le; lia). f_equal. lia.
Qed.

(** C10, as the code has it.  Whenever the book holds at least one slot, the
    number that [goToPage] hands to the flip widget lies between 0 and
    [pageCount - 1] for every page number, zero, negative, fractional or
    beyond the last page included: a number from 1 to [pageCount] gives the
    number minus one, anything up to 1 gives 0, anything from [pageCount] on
    gives the last index.  For an integer page number the target is the
    index of a slot.  In general the target is the index of a slot exactly
    when the page number is an integer or lies outside 1 .. [pageCount]: a
    fractional page number in between gives a fractional target.  Without a mounted flip book nothing is
    navigated. *)
Theorem C10_goToPage_is_clamped (pageNumber : Qc) (st : state) :
  0 < pageCount st →
  match goToPage pageNumber st with
  | Some targetIndex =>
      bookRef st = true ∧
      (0 ≤ targetIndex ≤ Qc_of_Z (pageCount st - 1))%Qc ∧
      ((1 ≤ pageNumber ≤ Qc_of_Z (pageCount st))%Qc → targetIndex = (pageNumber - 1)%Qc) ∧
      ((pageNumber ≤ 1)%Qc → targetIndex = 0%Qc) ∧
      ((Qc_of_Z (pageCount st) ≤ pageNumber)%Qc →
         targetIndex = Qc_of_Z (pageCount st - 1)) ∧
      (∀ n : Z, pageNumber = Qc_of_Z n →
         targetIndex = Qc_of_Z (Z.max 0 (Z.min (pageCount st - 1) (n - 1))) ∧
         Z.max 0 (Z.min (pageCount st - 1) (n - 1)) ∈ slots st) ∧
      ((∃ i : Z, i ∈ slots st ∧ targetIndex = Qc_of_Z i) ↔
         (∃ n : Z, pageNumber = Qc_of_Z n) ∨
         (pageNumber ≤ 1)%Qc ∨ (Qc_of_Z (pageCount st) ≤ pageNumber)%Qc)
  | None => bookRef st = false
  end.
Proof.
  intros Hpc. unfold goToPage. destruct (bookRef st) eqn:Href; [|done].
  assert (Hlh : (0 ≤ Qc_of_Z (pageCount st - 1))%Qc).
  { rewrite <- Z2Qc_inj_0. apply Z2Qc_le. lia. }
  destruct (clamp_spec 0%Qc (Qc_of_Z (pageCount st - 1)) (pageNumber - 1)%Qc Hlh)
    as (Hrange & Hin & Hlow & Hhigh).
  set (t := Math_max _ _) in *.
  assert (Hin' : (1 ≤ pageNumber ≤ Qc_of_Z (pageCount st))%Qc → t = (pageNumber - 1)%Qc).
  { intros [H1 H2]. apply Hin. split.
    - apply Qc_pred_le in H1. by replace (1 - 1)%Qc with 0%Qc in H1 by ring.
    - rewrite Z2Qc_pred. by apply Qc_pred_le. }
  assert (Hlow' : (pageNumber ≤ 1)%Qc → t = 0%Qc).
  { intros H1. apply Hlow. apply Qc_pred_le in H1. by replace (1 - 1)%Qc with 0%Qc in H1 by ring. }
  assert (Hhigh' : (Qc_of_Z (pageCount st) ≤ pageNumber)%Qc → t = Qc_of_Z (pageCount st - 1)).
  { intros H1. apply Hhigh. rewrite Z2Qc_pred. by apply Qc_pred_le. }
  assert (Hint : ∀ n : Z, pageNumber = Qc_of_Z n →
            t = Qc_of_Z (Z.max 0 (Z.min (pageCount st - 1) (n - 1)))).
  { intros n Hn. pose proof (goToPage_integer n st Hpc Href) as Hgo.
    unfold goToPage in Hgo. rewrite Href, <- Hn in Hgo. by injection Hgo. }
  split; [done|]. split; [exact Hrange|]. split; [exact Hin'|].
  split; [exact Hlow'|]. split; [exact Hhigh'|]. split.
  { intros n Hn. split; [by apply Hint|]. unfold slots. apply elem_of_seqZ. lia. }
  split.
  - intros (i & _ & Hi).
    destruct (decide (pageNumber ≤ 1)%Qc) as [H1|H1]; [by right; left|].
    destruct (decide (Qc_of_Z (pageCount st) ≤ pageNumber)%Qc) as [H2|H2];
      [by right; right|].
    left. exists (i + 1).
    apply Qclt_nge, Qclt_le_weak in H1, H2.
    rewrite Z2Qc_inj_add, Z2Qc_inj_1, <- Hi, Hin' by done. ring.
  - intros [[n Hn]|[H1|H2]].
    + eexists. split; [|by apply (Hint n)]. unfold slots. apply elem_of_seqZ. lia.
    + exists 0. split; [unfold slots; apply elem_of_seqZ; lia|].
      by rewrite Z2Qc_inj_0, Hlow'.
    + eexists. split; [|by apply Hhigh']. unfold slots. apply elem_of_seqZ. lia.
Qed.

Lemma C10_goToPage_is_clamped_witness :
  match goToPage two_and_a_half six_slots with
  | Some targetIndex => (0 ≤ targetIndex ≤ Qc_of_Z (pageCount six_slots - 1))%Qc
  | None => False
  end.
Proof.
  pose proof (C10_goToPage_is_clamped two_and_a_half six_slots) as H.
  destruct (goToPage two_and_a_half six_slots); [|discriminate H; reflexivity].
  apply H. reflexivity.
Defined.

(** C10 as stated fails in two ways.  The number typed is not rounded: in a
    book of six slots the page number 2.5 makes [goToPage] call [flip(1.5)],
    and 1.5 is the index of no slot.  And in a book without slots the
    target is 0, which lies outside [0, pageCount - 1], an empty range. *)
Lemma C10_target_is_no_slot_index :
  goToPage two_and_a_half six_slots = Some one_and_a_half ∧
  (∀ i : Z, Qc_of_Z i ≠ one_and_a_half) ∧
  goToPage 1%Qc empty_book = Some 0%Qc ∧
  slots empty_book = [] ∧
  ¬ (0 ≤ 0 ≤ pageCount empty_book - 1).
Proof.
  split; [unfold goToPage; simpl; f_equal; by apply Qc_is_canon|].
  split.
  { intros i Hi. apply (f_equal (λ q : Qc, Qden q)) in Hi. discriminate Hi. }
  split; [unfold goToPage; simpl; f_equal; by apply Qc_is_canon|].
  split; [reflexivity|]. simpl. lia.
Qed.

Example goToPage_out_of_range :
  goToPage (Qc_of_Z 99) six_slots = Some (Qc_of_Z 5) ∧
  goToPage (Qc_of_Z 0) six_slots = Some (Qc_of_Z 0) ∧
  goToPage (Qc_of_Z (-4)) six_slots = Some (Qc_of_Z 0) ∧
  goToPage (Qc_of_Z 3) six_slots = Some (Qc_of_Z 2).
Proof. repeat split; by rewrite goToPage_integer. Qed.

End Book_Spec.

(** * More properties of PortfolioBook1.jsx *)
Module Book1_More.
Import Book1 Book1_UI Book1_Spec.

Ltac step_cases H :=
  inversion H as
    [s n Hm' Hr|s t1 t2 i Hts|s t1 t2 i cl k o Hts|s t1 t2 cur c Hts
    |s t1 t2 o Hts|s t1 t2 o Hts|s t1 t2 n o Hts|s t1 t2 Hts|s Hm'|s Hm']; subst.

(** ** What one transition does to the cache and to the revoked URLs *)

Lemma loadPage_effect idx (called : bool) o st :
  ∃ st', loadPage idx (if called then loadPageImage (idx + 1) o else mret None) st
         = (st', Normal tt)
    ∧ (same_cache st st' ∨
       (∃ d, o = Rendered d ∧ called = true ∧ truthy d = true ∧ mounted st = true ∧
             pages st' = <[idx := d]> (pages st) ∧ shown st' = Some (committed st))).
Proof.
  destruct called; [destruct o as [d|err|err]; [destruct (truthy d) eqn:Hd| |]|].
  - eexists. split; [by apply loadPage_rendered|].
    unfold setPages. destruct (mounted st) eqn:Hm; simpl; [|by left].
    right. by exists d.
  - eexists. split; [unfold loadPage, loadPageImage, try_finally, try_catch, modify;
      simpl; unfold mbind, M_bind, mret, M_ret; simpl; rewrite Hd; reflexivity|].
    by left.
  - eexists. split; [apply loadPage_failed|]. by left.
  - eexists. split; [apply loadPage_encode_failed|]. by left.
  - eexists. split; [apply loadPage_null|]. by left.
Qed.

Lemma resume_loadPage_effect idx called k o st :
  let st' := resume_loadPage idx called k o st in
  same_cache st st' ∨
  (∃ d, o = Rendered d ∧ called = true ∧ truthy d = true ∧ mounted st = true ∧
        pages st' = <[idx := d]> (pages st) ∧ shown st' = Some (committed st)).
Proof.
  intros st'. unfold st', resume_loadPage.
  destruct (loadPage_effect idx called o st) as (s1 & -> & Heff).
  destruct k as [rest|]; [|exact Heff].
  destruct (foreground_loop_same_cache rest s1) as [Hp Hs].
  unfold same_cache. rewrite Hp, Hs. exact Heff.
Qed.

Lemma init_page_effect n o st :
  let st' := init_page n o st in
  same_cache st st' ∨
  (∃ d, o = Rendered d ∧ cancelled st = false ∧ truthy d = true ∧ mounted st = true ∧
        pages st' = <[n - 1 := d]> (pages st) ∧ shown st' = Some (committed st)).
Proof.
  intros st'. unfold st', init_page.
  destruct o as [d|err|err]; simpl.
  - destruct (cancelled st) eqn:Hc, (truthy d) eqn:Hd; simpl;
      try (case_decide; by left).
    unfold setPages. destruct (mounted st) eqn:Hm; [|case_decide; by left].
    right. exists d. case_decide; simpl; done.
  - case_decide; by left.
  - left. unfold init_catch. simpl. by destruct (cancelled st).
Qed.

Lemma same_cache_effect st st' :
  same_cache st st' → cache_effect st st' ∧ commit_effect st st'.
Proof.
  intros [Hp Hs]. split; [by left|]. left. unfold committed. by rewrite Hp, Hs.
Qed.

Lemma step_effect st st' :
  step st st' → cache_effect st st' ∧ revoke_effect st st' ∧ commit_effect st st'.
Proof.
  intros Hstep.
  assert (Hquiet : ∀ a b, settled a b → same_cache a b →
            cache_effect a b ∧ revoke_effect a b ∧ commit_effect a b).
  { intros a b [_ Hr] Hc. destruct (same_cache_effect a b Hc). by repeat split; [|left|]. }
  assert (Hwrite : ∀ a b idx d, settled a b → truthy d = true →
            pages b = <[idx := d]> (pages a) → shown b = Some (committed a) →
            cache_effect a b ∧ revoke_effect a b ∧ commit_effect a b).
  { intros a b idx d [_ Hr] Hd Hp Hs. split; [right; by exists idx, d|].
    split; [by left|]. left. unfold committed at 1. by rewrite Hs. }
  step_cases Hstep.
  - apply Hquiet.
    + unfold handlePageChange.
      by destruct (preloadPagesAround_settled (closure_of st) n true (set_currentPage n st)).
    + unfold handlePageChange.
      by destruct (preloadPagesAround_same_cache (closure_of st) n true (set_currentPage n st)).
  - apply Hquiet; unfold loadPage_call; by destruct (pdfRef _).
  - pose proof (resume_loadPage_settled i cl k o (set_tasks (t1 ++ t2) st)) as Hs.
    destruct (resume_loadPage_effect i cl k o (set_tasks (t1 ++ t2) st))
      as [Hc|(d & _ & _ & Hd & _ & Hp & Hsh)].
    + by apply Hquiet.
    + by apply (Hwrite _ _ i d).
  - apply Hquiet.
    + apply (preloadPagesAround_settled c cur false (set_tasks (t1 ++ t2) st)).
    + apply (preloadPagesAround_same_cache c cur false (set_tasks (t1 ++ t2) st)).
  - apply Hquiet; (destruct o as [d|err]; simpl;
      [destruct (cancelled st)|unfold init_catch; simpl; destruct (cancelled st)]); done.
  - apply Hquiet; (destruct o as [|err]; simpl;
      [|unfold init_catch; simpl; destruct (cancelled st)]); done.
  - pose proof (init_page_settled n o (set_tasks (t1 ++ t2) st)) as Hs.
    destruct (init_page_effect n o (set_tasks (t1 ++ t2) st))
      as [Hc|(d & _ & _ & Hd & _ & Hp & Hsh)].
    + by apply Hquiet.
    + by apply (Hwrite _ _ (n - 1) d).
  - unfold init_timer. simpl. destruct (cancelled st); [by apply Hquiet|].
    apply Hquiet.
    + apply (preloadPagesAround_settled first_render 0 false (set_tasks (t1 ++ t2) st)).
    + apply (preloadPagesAround_same_cache first_render 0 false (set_tasks (t1 ++ t2) st)).
  - split; [by left|]. split; [by right|by left].
  - unfold commit. destruct (shown st) as [m|] eqn:Hs; [|by apply Hquiet].
    split; [by left|]. split; [right; unfold committed; by rewrite Hs|by right].
Qed.

(** ** Invariants of the cache *)

(** X1. In every state the viewer can reach, an index has at most one load
    deferred or awaited; it is in the in-flight queue exactly when it has
    one, and the loading set (which drives the spinners) agrees with the
    queue. *)
Theorem X1_one_load_in_flight_per_index (st : state) (i : Z) :
  reachable st →
  (length (inflight i st) ≤ 1)%nat ∧
  (i ∈ loadingQueue st ↔ inflight i st ≠ []) ∧
  (i ∈ loadingPages st ↔ i ∈ loadingQueue st).
Proof.
  intros Hr. destruct (one_load_per_index_reachable st Hr) as (Hnd & Hq & Hl).
  split; [by apply inflight_at_most_one|].
  split; [by rewrite Hq, inflight_load_indices|by rewrite Hl].
Qed.

Lemma X1_one_load_in_flight_per_index_witness :
  (length (inflight 3 run_late) ≤ 1)%nat ∧
  (3 ∈ loadingQueue run_late ↔ inflight 3 run_late ≠ []) ∧
  (3 ∈ loadingPages run_late ↔ 3 ∈ loadingQueue run_late).
Proof. apply (X1_one_load_in_flight_per_index run_late 3 run_late_reachable). Defined.

Lemma cache_effect_lookup st st' i d :
  cache_effect st st' → pages st' !! i = Some d →
  pages st !! i = Some d ∨ truthy d = true.
Proof.
  intros [->|(idx & d' & Hd' & ->)] Hl; [by left|].
  destruct (decide (idx = i)) as [->|Hne].
  - rewrite lookup_insert_eq in Hl. inversion Hl; subst. by right.
  - rewrite lookup_insert_ne in Hl by done. by left.
Qed.

(** The cache never holds an empty payload: both [loadPage] and [init] test
    the payload before storing it. *)
Lemma cached_payloads_nonempty (st : state) (i : Z) (d : string) :
  reachable st → pages st !! i = Some d → truthy d = true.
Proof.
  intros Hr. unfold reachable in Hr. revert i d.
  apply rtc_nsteps in Hr as [n Hn]. revert st Hn.
  induction n as [|n IH]; intros st Hn i d Hl.
  - inversion Hn; subst. unfold mount in Hl. simpl in Hl. by rewrite lookup_empty in Hl.
  - apply nsteps_inv_r in Hn as (s & Hs & Hstep).
    destruct (step_effect s st Hstep) as [Hc _].
    destruct (cache_effect_lookup s st i d Hc Hl) as [Hold|Hd]; [|done].
    by apply (IH s Hs i d).
Qed.

(** X2. What a slot shows in a reachable state: the image exactly when the
    index is cached (a cached payload is never empty, so the [img] branch is
    always taken for it); the spinner exactly when it is not cached and a
    load of it is deferred or awaited; the static "Page n" text otherwise.
    So no spinner is left behind by a load that has settled. *)
Theorem X2_slot_shows_cache_or_pending_load (st : state) (i : Z) :
  reachable st →
  match slot st i with
  | Image src _ _ => pages st !! i = Some src ∧ truthy src = true
  | Spinner n => n = i + 1 ∧ pages st !! i = None ∧ inflight i st ≠ []
  | Placeholder n => n = i + 1 ∧ pages st !! i = None ∧ inflight i st = []
  end.
Proof.
  intros Hr. destruct (one_load_per_index_reachable st Hr) as (_ & Hq & Hl).
  unfold slot, PageComponent.
  destruct (pages st !! i) as [d|] eqn:Hp.
  - pose proof (cached_payloads_nonempty st i d Hr Hp) as Hd. rewrite Hd. done.
  - rewrite Hl. case_bool_decide as Hin.
    + split; [done|]. split; [done|]. by apply inflight_load_indices, Hq.
    + split; [done|]. split; [done|].
      destruct (inflight i st) eqn:Hf; [done|]. exfalso. apply Hin, Hq.
      apply inflight_load_indices. unfold inflight in Hf. by rewrite Hf.
Qed.

Lemma X2_slot_shows_cache_or_pending_load_witness :
  match slot run_late 3 with
  | Image src _ _ => pages run_late !! 3 = Some src ∧ truthy src = true
  | Spinner n => n = 3 + 1 ∧ pages run_late !! 3 = None ∧ inflight 3 run_late ≠ []
  | Placeholder n => n = 3 + 1 ∧ pages run_late !! 3 = None ∧ inflight 3 run_late = []
  end.
Proof. apply (X2_slot_shows_cache_or_pending_load run_late 3 run_late_reachable). Defined.

(** X3. The cache only grows: no transition removes a record, so an index
    that is cached stays cached in every later state (its payload may be
    replaced by a later render of the same index). *)
Theorem X3_cache_never_evicts (st st' : state) (i : Z) :
  rtc step st st' → is_Some (pages st !! i) → is_Some (pages st' !! i).
Proof.
  intros Hrtc. induction Hrtc as [|x y z Hxy _ IH]; [done|].
  intros Hx. apply IH.
  destruct (step_effect x y Hxy) as [[->|(idx & d & _ & ->)] _]; [done|].
  destruct (decide (idx = i)) as [->|Hne].
  - rewrite lookup_insert_eq. eauto.
  - by rewrite lookup_insert_ne.
Qed.

Lemma X3_cache_never_evicts_witness : is_Some (pages run_late !! 1).
Proof.
  apply (X3_cache_never_evicts run_shown run_late 1).
  - eapply rtc_l; [apply (step_navigate run_shown 2); reflexivity|].
    eapply rtc_l; [apply (step_unmount run_turned); reflexivity|].
    eapply rtc_l; [|apply rtc_refl].
    apply (step_await run_unmounted [InitTimer] [Timer 2 (closure_of run_shown)]
             2 true (Some [3]) (Rendered "blob:p2")).
    reflexivity.
  - exists "blob:p1"%string. reflexivity.
Defined.

(** X4. Only blob URLs are ever revoked: in every reachable state each
    revoked URL starts with "blob:", so a data URL is never passed to
    [URL.revokeObjectURL]. *)
Theorem X4_only_blob_urls_are_revoked (st : state) (d : string) :
  reachable st → d ∈ revoked st → startsWith d "blob:" = true.
Proof.
  intros Hr. unfold reachable in Hr.
  apply rtc_nsteps in Hr as [n Hn]. revert st Hn.
  induction n as [|n IH]; intros st Hn Hd.
  - inversion Hn; subst. simpl in Hd. by apply elem_of_empty in Hd.
  - apply nsteps_inv_r in Hn as (s & Hs & Hstep).
    destruct (step_effect s st Hstep) as (_ & [Heq|Heq] & _); rewrite Heq in Hd.
    + by apply (IH s).
    + apply elem_of_union in Hd as [Hd|Hd]; [by apply (IH s)|].
      by apply blob_urls_elem_of in Hd as [Hb _].
Qed.

Lemma X4_only_blob_urls_are_revoked_witness : startsWith "blob:p0" "blob:" = true.
Proof.
  apply (X4_only_blob_urls_are_revoked run_late "blob:p0" run_late_reachable).
  vm_compute. set_solver.
Defined.

(** The committed cache never holds an index that the latest cache has
    not. *)
Lemma committed_cached_reachable st : reachable st → committed_cached st.
Proof.
  intros Hr. unfold reachable in Hr.
  assert (Hm : committed_cached mount) by (intros i Hi; exact Hi).
  revert Hm. induction Hr as [|x y z Hxy _ IH]; [done|].
  intros Hx. apply IH. intros i Hi.
  destruct (step_effect x y Hxy) as (Hc & _ & [Heq|Heq]); rewrite Heq in Hi; [|done].
  apply Hx in Hi.
  destruct Hc as [->|(idx & d & _ & ->)]; [done|].
  destruct (decide (idx = i)) as [->|Hne].
  - rewrite lookup_insert_eq. eauto.
  - by rewrite lookup_insert_ne.
Qed.

(** X5. A blob URL is revoked while it is still in use.  When a write of
    the cache waits for its render on the mounted viewer, that render is a
    possible transition, and it runs the cleanup of the effect on [pages] on
    the map of the previous render: every blob URL of that map is revoked,
    although its index is still cached; where the record was not replaced
    in between, the slot goes on showing the revoked URL. *)
Theorem X5_cached_blob_revoked_by_next_render
    (st : state) (m : gmap Z string) (i : Z) (d : string) :
  reachable st → mounted st = true → shown st = Some m →
  m !! i = Some d → startsWith d "blob:" = true →
  step st (commit st) ∧
  d ∈ revoked (commit st) ∧
  is_Some (pages (commit st) !! i) ∧
  shown (commit st) = None ∧
  (pages st !! i = Some d → ∃ shadow border, slot (commit st) i = Image d shadow border).
Proof.
  intros Hr Hm Hs Hi Hb.
  assert (Hcached : is_Some (pages st !! i)).
  { apply (committed_cached_reachable st Hr). unfold committed. rewrite Hs. simpl. eauto. }
  split; [by apply step_render|].
  unfold commit. rewrite Hs. simpl.
  split; [apply elem_of_union; right; apply blob_urls_elem_of; eauto|].
  split; [exact Hcached|]. split; [done|].
  intros Hp. unfold slot, PageComponent. simpl. rewrite Hp.
  destruct d as [|a d]; [done|]. simpl. eauto.
Qed.

Lemma X5_cached_blob_revoked_by_next_render_witness :
  "blob:p1"%string ∈ revoked (commit run_spread_2) ∧
  ∃ shadow border, slot (commit run_spread_2) 1 = Image "blob:p1" shadow border.
Proof.
  destruct (X5_cached_blob_revoked_by_next_render run_spread_2 (pages run_shown) 1 "blob:p1"
              run_spread_2_reachable eq_refl eq_refl eq_refl eq_refl)
    as (_ & Hrev & _ & _ & Hslot).
  split; [exact Hrev|]. apply Hslot. reflexivity.
Defined.

(** ** The init effect *)

(** The preload that [init] defers is the one of the first render, whose
    [pageCount] is 0: it returns at the guard. *)
Lemma init_timer_noop st : init_timer st = st.
Proof.
  unfold init_timer. destruct (cancelled st); [done|].
  apply preloadPagesAround_guard. by right.
Qed.

Lemma init_run_reachable d o1 o2 :
  caught o1 → caught o2 → reachable (init_run d o1 o2).
Proof.
  intros H1 H2. unfold reachable, init_run, init_pages.
  eapply rtc_l; [apply (step_init_open mount [] [] (Opened d)); reflexivity|].
  eapply rtc_l; [apply (step_init_dims _ [] [] PageReady); reflexivity|].
  eapply rtc_l; [apply (step_init_page _ [] [] 1 o1); reflexivity|].
  eapply rtc_l;
    [apply (step_init_page _ [] [] 2 o2); destruct o1 as [d1| |]; [destruct d1| |]; done|].
  eapply rtc_l; [|apply rtc_refl].
  apply (step_init_timer _ [] []).
  destruct o1 as [d1| |], o2 as [d2| |]; try done;
    try destruct d1; try destruct d2; reflexivity.
Qed.

(** X6. A whole [init] on a document that opens, whatever the two page
    renders answer short of a rejected blob promise: the viewer ends in the
    book view with nothing pending; slot 0 and slot 1 hold what their
    renders produced (nothing for a failed or empty one) and no other slot
    is cached; [getPage] was called for pages 1 and 2 only.  The background
    preload that [init] schedules requests nothing, because it runs the
    [preloadPagesAround] of the first render, whose [pageCount] is 0. *)
Theorem X6_init_renders_the_first_two_pages_only
    (d : pdf) (o1 o2 : renderOutcome) :
  caught o1 → caught o2 →
  let s := init_run d o1 o2 in
  reachable s ∧
  render s = BookView ∧
  pages s !! 0 = stored o1 ∧
  pages s !! 1 = stored o2 ∧
  (∀ i, i ≠ 0 → i ≠ 1 → pages s !! i = None) ∧
  getPageCalls s = [1; 2] ∧
  tasks s = [] ∧
  loadingQueue s = ∅ ∧
  pdfRef s = Some d ∧ pageCount s = numPages d ∧
  s = set_tasks [] (init_pages d o1 o2).
Proof.
  intros H1 H2 s.
  split; [by apply init_run_reachable|].
  assert (Hdom : dom (pages s) ⊆ {[0; 1]}).
  { unfold s. destruct o1 as [d1|e1|e1]; [destruct d1 as [|a1 d1]| |done];
      (destruct o2 as [d2|e2|e2]; [destruct d2 as [|a2 d2]| |done]);
      apply (bool_decide_unpack _); vm_compute; exact I. }
  assert (Hrest : ∀ i, i ≠ 0 → i ≠ 1 → pages s !! i = None).
  { intros i Hi0 Hi1. apply not_elem_of_dom. intros Hi. apply Hdom in Hi. set_solver. }
  assert (Hnoop : s = set_tasks [] (init_pages d o1 o2)) by apply init_timer_noop.
  unfold s in *. clear Hdom.
  destruct o1 as [d1|e1|e1]; [destruct d1 as [|a1 d1]| |done];
    (destruct o2 as [d2|e2|e2]; [destruct d2 as [|a2 d2]| |done]);
    (split; [vm_compute; reflexivity|]); (split; [vm_compute; reflexivity|]);
    (split; [vm_compute; reflexivity|]); (split; [exact Hrest|]);
    (split; [vm_compute; reflexivity|]); (split; [vm_compute; reflexivity|]);
    (split; [vm_compute; reflexivity|]); (split; [vm_compute; reflexivity|]);
    (split; [vm_compute; reflexivity|]); exact Hnoop.
Qed.

Lemma X6_init_renders_the_first_two_pages_only_witness :
  pages (init_run doc10 (Rendered "data:0") (RenderError "no such page")) !! 0
    = stored (Rendered "data:0").
Proof.
  apply (X6_init_renders_the_first_two_pages_only doc10
           (Rendered "data:0") (RenderError "no such page")); exact I.
Defined.

(** X7. What makes [init] fatal once the document is open: when
    [pdf.getPage(1)] fails, or when the blob promise returned by
    [loadPageImage] is rejected, the [catch] of [init] logs the error, shows
    the error view with its message and stops; nothing further is scheduled
    and the cache is left as it was. *)
Theorem X7_init_failures_after_open_are_fatal (n : Z) (err : string) (st : state) :
  cancelled st = false →
  let fatal s :=
    render s = ErrorView (load_error_message err) ∧
    tasks s = tasks st ∧ pages s = pages st ∧
    getPageCalls s = getPageCalls st ∧
    console s = console st ++ [LogPdfError err] in
  fatal (init_dims (PageError err) st) ∧ fatal (init_page n (EncodeError err) st).
Proof.
  intros Hc fatal. unfold fatal, init_dims, init_page, init_catch, render. simpl.
  rewrite Hc. simpl. rewrite load_error_message_truthy. done.
Qed.

Lemma X7_init_failures_after_open_are_fatal_witness :
  render (init_dims (PageError "bad page") run_opened)
    = ErrorView (load_error_message "bad page").
Proof.
  apply (X7_init_failures_after_open_are_fatal 1 "bad page" run_opened). reflexivity.
Defined.

(** X8. Once the cleanup has set [cancelled], [init] writes nothing the
    viewer shows: whatever answer arrives, the cache, the error, the
    document handle and the page count stay as they are, and a document
    that opens late is dropped altogether. *)
Theorem X8_cancelled_init_changes_nothing_shown
    (n : Z) (oo : openOutcome) (po : pageOutcome) (ro : renderOutcome) (st : state) :
  cancelled st = true →
  same_display st (init_opened oo st) ∧
  same_display st (init_dims po st) ∧
  same_display st (init_page n ro st) ∧
  same_display st (init_timer st) ∧
  init_opened oo st = st ∧ init_timer st = st.
Proof.
  intros Hc. unfold same_display.
  assert (Ho : init_opened oo st = st).
  { unfold init_opened, init_catch. destruct oo; by rewrite Hc. }
  assert (Ht : init_timer st = st) by apply init_timer_noop.
  rewrite Ho, Ht. split; [done|]. split.
  { unfold init_dims, init_catch. destruct po; [done|]. by rewrite Hc. }
  split; [|done].
  unfold init_page, init_catch. destruct ro as [d|e|e]; simpl; rewrite ?Hc; simpl.
  - case_decide; done.
  - case_decide; done.
  - done.
Qed.

Lemma X8_cancelled_init_changes_nothing_shown_witness :
  same_display run_unmounted (init_page 2 (Rendered "blob:late") run_unmounted).
Proof.
  apply (X8_cancelled_init_changes_nothing_shown 2 (LoadError "") PageReady
           (Rendered "blob:late") run_unmounted).
  reflexivity.
Defined.

(** ** The background pass *)

(** X9. A background pass renders nothing itself and is bounded: it leaves
    the cache and the [getPage] calls as they are and only appends deferred
    loads, at most four, for distinct indices, in batch order; each of them
    lies in the window [currentIndex - 2, currentIndex + 3] and in
    [0, pageCount), is not cached in the closure and was not in flight; and
    the queue and the loading set grow by exactly these indices. *)
Theorem X9_background_pass_defers_at_most_four
    (c : closure) (currentIndex : Z) (st : state) :
  let st' := preloadPagesAround c currentIndex false st in
  ∃ new : list Z,
    tasks st' = tasks st ++ (Idle <$> new) ∧
    (length new ≤ 4)%nat ∧
    NoDup new ∧
    (∀ i, i ∈ new →
       currentIndex - 2 ≤ i ≤ currentIndex + 3 ∧ 0 ≤ i < c_pageCount c ∧
       c_pages c !! i = None ∧ i ∉ loadingQueue st) ∧
    loadingQueue st' = loadingQueue st ∪ list_to_set new ∧
    loadingPages st' = loadingPages st ∪ list_to_set new ∧
    getPageCalls st' = getPageCalls st ∧
    pages st' = pages st.
Proof.
  intros st'. unfold st', preloadPagesAround. case_decide as Hg.
  - exists []. simpl. rewrite app_nil_r.
    split; [done|]. split; [lia|]. split; [constructor|].
    split; [intros i Hi; by apply elem_of_nil in Hi|].
    split; [set_solver|]. split; [set_solver|done].
  - exists (filter (λ i, i ∉ loadingQueue st) (batch c currentIndex false)).
    destruct (background_loop_defers (batch c currentIndex false) st (batch_NoDup c currentIndex))
      as (Ht & Hlq & Hlp & Hgp).
    split; [exact Ht|]. split.
    { etrans; [apply length_filter|]. unfold batch, slice0. rewrite length_take. lia. }
    split; [apply NoDup_filter, batch_NoDup|].
    split.
    { intros i Hi. apply list_elem_of_filter in Hi as [Hq Hb].
      unfold batch, slice0 in Hb. apply elem_of_take in Hb as (n & Hn & _).
      apply list_elem_of_lookup_2 in Hn. apply background_candidates in Hn. tauto. }
    split; [exact Hlq|]. split; [exact Hlp|]. split; [exact Hgp|].
    apply background_loop_pages.
Qed.

(** ** A turn of the page on an idle viewer *)

Lemma run_cons e es st s : perform e st = Some s → run (e :: es) st = run es s.
Proof. intros Hp. simpl. by rewrite Hp. Qed.

(** The foreground loop at an index that is not in flight, with a document. *)
Lemma foreground_loop_starts d idx rest st :
  pdfRef st = Some d → idx ∉ loadingQueue st →
  foreground_loop (idx :: rest) st =
    push (Await idx true (Some rest))
      (set_getPageCalls (getPageCalls st ++ [idx + 1]) (mark idx st)).
Proof.
  intros Hd Hq. simpl. rewrite decide_False by done.
  unfold loadPage_call. simpl. by rewrite Hd.
Qed.

Lemma perform_navigate st newPage :
  mounted st = true → render st = BookView →
  perform (Navigate newPage) st = Some (handlePageChange (closure_of st) newPage st).
Proof. intros Hm Hv. simpl. by rewrite decide_True. Qed.

Lemma perform_settle_head idx called k o ts st :
  tasks st = Await idx called k :: ts →
  perform (Settle idx o) st = Some (resume_loadPage idx called k o (set_tasks ts st)).
Proof.
  intros Hts. unfold perform. rewrite Hts. simpl. by rewrite decide_True.
Qed.

Lemma perform_settle_after_timer idx called k o cur c ts st :
  tasks st = Timer cur c :: Await idx called k :: ts →
  perform (Settle idx o) st =
    Some (resume_loadPage idx called k o (set_tasks (Timer cur c :: ts) st)).
Proof.
  intros Hts. unfold perform. rewrite Hts. simpl. by rewrite decide_True.
Qed.

Lemma resume_rendered idx k d st :
  truthy d = true →
  resume_loadPage idx true k (Rendered d) st =
    match k with
    | Some rest =>
        foreground_loop rest
          (set_loadingQueue (loadingQueue st ∖ {[idx]})
             (setLoadingPages (λ prev, prev ∖ {[idx]})
                (setPages (λ prev, <[idx := d]> prev) st)))
    | None =>
        set_loadingQueue (loadingQueue st ∖ {[idx]})
          (setLoadingPages (λ prev, prev ∖ {[idx]})
             (setPages (λ prev, <[idx := d]> prev) st))
    end.
Proof.
  intros Hd. unfold resume_loadPage. rewrite loadPage_rendered by done.
  by destruct k.
Qed.

(** X10. Turning to page [newPage] on a viewer that shows the book and has
    nothing in flight, when [newPage + 1] is still a page and both renders
    succeed: [getPage] is called for [newPage + 1] and then for
    [newPage + 2] (page numbers start at 1), both payloads are cached under
    [newPage] and [newPage + 1], nothing stays in flight, and only the timer
    of the background pass is left. *)
Theorem X10_turn_caches_the_visible_spread
    (newPage : Z) (d0 d1 : string) (st : state) :
  mounted st = true → render st = BookView →
  pdfRef st ≠ None → pageCount st ≠ 0 → newPage + 1 < pageCount st →
  loadingQueue st = ∅ → loadingPages st = ∅ → tasks st = [] →
  truthy d0 = true → truthy d1 = true →
  ∃ s,
    run [Navigate newPage; Settle newPage (Rendered d0);
         Settle (newPage + 1) (Rendered d1)] st = Some s ∧
    pages s = <[newPage + 1 := d1]> (<[newPage := d0]> (pages st)) ∧
    loadingQueue s = ∅ ∧ loadingPages s = ∅ ∧
    tasks s = [Timer newPage (closure_of st)] ∧
    getPageCalls s = getPageCalls st ++ [newPage + 1; newPage + 1 + 1] ∧
    currentPage s = newPage.
Proof.
  intros Hm Hv Hpdf Hpc Hnext Hq Hlp Hts Hd0 Hd1.
  destruct st as [pdf pc pg sh lp lq ld er cp ca mo co gp rv ts].
  simpl in Hm, Hpdf, Hpc, Hnext, Hq, Hlp, Hts. subst mo lq lp ts.
  destruct pdf as [d|]; [clear Hpdf|done].
  set (st := mkState (Some d) pc pg sh ∅ ∅ ld er cp ca true co gp rv []) in *.
  set (timer := Timer newPage (closure_of st)).
  (* the navigation starts the render of [newPage] *)
  assert (H1 : perform (Navigate newPage) st =
    Some (mkState (Some d) pc pg sh (∅ ∪ {[newPage]}) (∅ ∪ {[newPage]}) ld er newPage ca true
            co (gp ++ [newPage + 1]) rv [Await newPage true (Some [newPage + 1]); timer])).
  { rewrite perform_navigate by done. f_equal.
    unfold handlePageChange, preloadPagesAround.
    rewrite decide_False by (simpl; intros [?|?]; done).
    rewrite foreground_batch, decide_True by (simpl; lia).
    rewrite (foreground_loop_starts d) by (simpl; set_solver). reflexivity. }
  (* it settles, and the loop starts the render of [newPage + 1] *)
  assert (H2 : perform (Settle newPage (Rendered d0))
      (mkState (Some d) pc pg sh (∅ ∪ {[newPage]}) (∅ ∪ {[newPage]}) ld er newPage ca true
         co (gp ++ [newPage + 1]) rv [Await newPage true (Some [newPage + 1]); timer]) =
    Some (mkState (Some d) pc (<[newPage := d0]> pg) (Some (default pg sh))
            ((∅ ∪ {[newPage]}) ∖ {[newPage]} ∪ {[newPage + 1]})
            ((∅ ∪ {[newPage]}) ∖ {[newPage]} ∪ {[newPage + 1]}) ld er newPage ca true
            co ((gp ++ [newPage + 1]) ++ [newPage + 1 + 1]) rv
            [timer; Await (newPage + 1) true (Some [])])).
  { erewrite perform_settle_head by reflexivity.
    rewrite resume_rendered by done. f_equal.
    rewrite (foreground_loop_starts d) by (simpl; set_solver). reflexivity. }
  (* and that one settles too *)
  assert (H3 : perform (Settle (newPage + 1) (Rendered d1))
      (mkState (Some d) pc (<[newPage := d0]> pg) (Some (default pg sh))
            ((∅ ∪ {[newPage]}) ∖ {[newPage]} ∪ {[newPage + 1]})
            ((∅ ∪ {[newPage]}) ∖ {[newPage]} ∪ {[newPage + 1]}) ld er newPage ca true
            co ((gp ++ [newPage + 1]) ++ [newPage + 1 + 1]) rv
            [timer; Await (newPage + 1) true (Some [])]) =
    Some (mkState (Some d) pc (<[newPage + 1 := d1]> (<[newPage := d0]> pg))
            (Some (default pg sh))
            (((∅ ∪ {[newPage]}) ∖ {[newPage]} ∪ {[newPage + 1]}) ∖ {[newPage + 1]})
            (((∅ ∪ {[newPage]}) ∖ {[newPage]} ∪ {[newPage + 1]}) ∖ {[newPage + 1]})
            ld er newPage ca true
            co ((gp ++ [newPage + 1]) ++ [newPage + 1 + 1]) rv
            [timer])).
  { erewrite perform_settle_after_timer by reflexivity.
    rewrite resume_rendered by done. reflexivity. }
  eexists. split.
  { rewrite (run_cons _ _ _ _ H1), (run_cons _ _ _ _ H2), (run_cons _ _ _ _ H3).
    reflexivity. }
  simpl. split; [done|]. split; [set_solver|]. split; [set_solver|]. split; [done|].
  split; [by rewrite <- app_assoc|done].
Qed.

Lemma X10_turn_caches_the_visible_spread_witness :
  ∃ s,
    run [Navigate 6; Settle 6 (Rendered "data:6"); Settle (6 + 1) (Rendered "data:7")]
        (showing ∅) = Some s ∧
    pages s = <[6 + 1 := "data:7"%string]> (<[6 := "data:6"%string]> (pages (showing ∅))) ∧
    loadingQueue s = ∅ ∧ loadingPages s = ∅ ∧
    tasks s = [Timer 6 (closure_of (showing ∅))] ∧
    getPageCalls s = getPageCalls (showing ∅) ++ [6 + 1; 6 + 1 + 1] ∧
    currentPage s = 6.
Proof.
  apply (X10_turn_caches_the_visible_spread 6 "data:6" "data:7" (showing ∅)).
  - reflexivity.
  - reflexivity.
  - discriminate.
  - discriminate.
  - reflexivity.
  - reflexivity.
  - reflexivity.
  - reflexivity.
  - reflexivity.
  - reflexivity.
Defined.

(** ** The keyboard *)

Lemma press_flipPageRef burst ks : flipPageRef (press burst ks) = flipPageRef ks.
Proof.
  revert ks. induction burst as [|key burst IH]; intros ks; [done|].
  unfold press in *. simpl. rewrite IH. unfold handleKey.
  by destruct (flipPageRef ks) eqn:Href.
Qed.

Lemma press_flips burst ks : flips (press burst ks) = flips ks.
Proof.
  revert ks. induction burst as [|key burst IH]; intros ks; [done|].
  unfold press in *. simpl. rewrite IH. unfold handleKey. by destruct (flipPageRef ks).
Qed.

(** X11. The keyboard is debounced: of a burst of key presses with no timer
    firing in between, only the last one counts.  When the timer fires the
    widget is asked to flip once, forward for ArrowRight, back for
    ArrowLeft, and not at all for another key; the presses themselves flip
    nothing; and while the widget is not mounted a press changes nothing. *)
Theorem X11_key_burst_flips_once (burst : list string) (key : string) (ks : keys) :
  flipPageRef ks = true → last burst = Some key →
  flips (press burst ks) = flips ks ∧
  keyTimeout (press burst ks) = Some key ∧
  flips (key_timer (press burst ks)) = flips ks ++ flip_of key ∧
  keyTimeout (key_timer (press burst ks)) = None ∧
  (length (flips (key_timer (press burst ks))) ≤ length (flips ks) + 1)%nat ∧
  keyTimeout (key_cleanup (press burst ks)) = None ∧
  key_timer (key_cleanup (press burst ks)) = key_cleanup (press burst ks).
Proof.
  intros Href Hlast. apply last_Some in Hlast as [l ->].
  assert (Hp : press (l ++ [key]) ks = mkKeys true (Some key) (flips ks)).
  { unfold press. rewrite foldl_snoc. fold (press l ks). unfold handleKey.
    by rewrite press_flipPageRef, Href, press_flips. }
  rewrite Hp. simpl.
  assert (Hf : (if decide (key = "ArrowRight"%string) then [gotoNextPage] else []) ++
               (if decide (key = "ArrowLeft"%string) then [gotoPreviousPage] else [])
               = flip_of key).
  { unfold flip_of. repeat case_decide; subst; done. }
  unfold key_timer. simpl. rewrite Hf.
  repeat split; try done.
  rewrite length_app. unfold flip_of. repeat case_decide; simpl; lia.
Qed.

Lemma X11_key_burst_flips_once_witness :
  flips (key_timer (press ["ArrowRight"; "ArrowRight"; "ArrowLeft"]%string
                      (mkKeys true None [])))
    = flips (mkKeys true None []) ++ flip_of "ArrowLeft".
Proof.
  apply (X11_key_burst_flips_once ["ArrowRight"; "ArrowRight"; "ArrowLeft"]%string
           "ArrowLeft" (mkKeys true None [])); reflexivity.
Defined.

(** ** After the unmount *)

(** X21. The unmount is the last revocation: whatever happens after the
    cleanups have run, the revoked URLs stay exactly those revoked before
    plus the blob URLs of the cache that was committed at the unmount (the
    cache itself, when no write was waiting for its render), and the
    component stays unmounted; a blob URL that a later render makes is
    therefore never released. *)
Theorem X21_nothing_is_revoked_after_unmount (st st' : state) :
  mounted st = true → rtc step (unmount st) st' →
  revoked st' = revoked st ∪ blob_urls (committed st) ∧
  mounted st' = false ∧
  (∀ d, (∃ i, committed st !! i = Some d) → startsWith d "blob:" = true → d ∈ revoked st') ∧
  (∀ d, d ∉ revoked st → (∀ i, committed st !! i ≠ Some d) → d ∉ revoked st') ∧
  (shown st = None → revoked st' = revoked st ∪ blob_urls (pages st)).
Proof.
  intros Hm Hrtc.
  destruct (unmounted_rtc (unmount st) st' eq_refl Hrtc) as [[Hm' Hr'] _].
  simpl in Hm', Hr'.
  split; [exact Hr'|]. split; [exact Hm'|]. rewrite Hr'. split; [|split].
  - intros d Hin Hb. apply elem_of_union. right. by apply blob_urls_elem_of.
  - intros d Hnr Hnc Hd. apply elem_of_union in Hd as [Hd|Hd]; [done|].
    apply blob_urls_elem_of in Hd as [_ [i Hi]]. by apply (Hnc i).
  - intros Hs. unfold committed. by rewrite Hs.
Qed.

Lemma X21_nothing_is_revoked_after_unmount_witness :
  revoked run_late = revoked run_turned ∪ blob_urls (committed run_turned).
Proof.
  assert (Hrtc : rtc step (unmount run_turned) run_late).
  { apply rtc_once.
    apply (step_await run_unmounted [InitTimer] [Timer 2 (closure_of run_shown)]
             2 true (Some [3]) (Rendered "blob:p2")).
    reflexivity. }
  exact (proj1 (X21_nothing_is_revoked_after_unmount run_turned run_late eq_refl Hrtc)).
Defined.

End Book1_More.

(** * More properties of PortfolioBook.jsx *)
Module Book_More.
Import Book Book_UI Book_Spec.

(** ** loadPageImage *)

(** X12. The two images that [loadPageImage] returns for a page tile its
    canvas: the left one starts at 0, the right one starts where the left
    one ends, their widths add up to the canvas width and both have its
    height; for an odd width the right half is the wider one, by one pixel.
    The state is not touched.  A page that fails to render makes the call
    throw, and so does a missing document. *)
Theorem X12_halves_tile_the_page (d : pdf) (n width height : Z) (st : state) :
  page_canvas d n = Normal (width, height) → 0 ≤ width →
  ∃ l r,
    loadPageImage (Some d) n st = (st, Normal [l; r]) ∧
    of_page l = n ∧ of_page r = n ∧
    sx l = 0 ∧ sx r = sx l + sw l ∧ sw l + sw r = width ∧
    sh l = height ∧ sh r = height ∧
    0 ≤ sw l ≤ sw r ∧ sw r ≤ sw l + 1 ∧
    (∀ e n', page_canvas d n' = Throw e → loadPageImage (Some d) n' st = (st, Throw e)) ∧
    (∃ e, loadPageImage None n st = (st, Throw e)).
Proof.
  intros Hcv Hw.
  exists (left_half n width height), (right_half n width height).
  pose proof (Z.div_pos width 2 Hw ltac:(lia)).
  pose proof (Z.mod_pos_bound width 2 ltac:(lia)).
  pose proof (Z.div_mod width 2 ltac:(lia)).
  split; [by rewrite loadPageImage_split, Hcv|].
  unfold left_half, right_half. simpl sx. simpl sw. simpl sh. simpl of_page.
  repeat (split; [lia|]).
  split.
  - intros e n' He. by rewrite loadPageImage_split, He.
  - by eexists.
Qed.

Lemma X12_halves_tile_the_page_witness :
  ∃ l r,
    loadPageImage (Some doc3) 2 mount = (mount, Normal [l; r]) ∧
    of_page l = 2 ∧ of_page r = 2 ∧
    sx l = 0 ∧ sx r = sx l + sw l ∧ sw l + sw r = 1201 ∧
    sh l = 800 ∧ sh r = 800 ∧
    0 ≤ sw l ≤ sw r ∧ sw r ≤ sw l + 1 ∧
    (∀ e n', page_canvas doc3 n' = Throw e →
             loadPageImage (Some doc3) n' mount = (mount, Throw e)) ∧
    (∃ e, loadPageImage None 2 mount = (mount, Throw e)).
Proof. apply (X12_halves_tile_the_page doc3 2 1201 800 mount); [reflexivity|lia]. Defined.

(** ** preloadPagesAround *)

(** What one turn of the loop may change. *)
Lemma preload_one_frame c idx st :
  let st' := fst (preload_one c idx st) in
  pdfRef st' = pdfRef st ∧ pageCount st' = pageCount st ∧
  loading st' = loading st ∧ error st' = error st ∧
  bookRef st' = bookRef st ∧ console st' = console st ∧
  (∀ j, j ≠ idx → pages st' !! j = pages st !! j) ∧
  (pages st' = pages st ∨ (0 ≤ idx < c_pageCount c ∧ c_pages c !! idx = None)).
Proof.
  unfold preload_one. case_decide as Hb; [simpl; by repeat split; try left|].
  destruct (c_pages c !! idx) eqn:Hc; [simpl; by repeat split; try left|].
  rewrite bind_fst. unfold loadPageImage.
  destruct (pdfRef st) as [d|] eqn:Hd; [|simpl; rewrite ?Hd; by repeat split; try left].
  destruct (page_canvas d _) as [[w h]|e]; [|simpl; rewrite ?Hd; by repeat split; try left].
  simpl. rewrite Hd. repeat split; try done.
  - intros j Hj. destruct (at_index _ _);
      [by rewrite lookup_insert_ne|by rewrite lookup_delete_ne].
  - right. split; [lia|done].
Qed.

Lemma only_touches_one c i s :
  only_touches c (λ idx, idx = i) s (fst (preload_one c i s)).
Proof.
  destruct (preload_one_frame c i s) as (F1 & F2 & F3 & F4 & F5 & F6 & Hother & Hsame).
  unfold only_touches. repeat (split; [done|]).
  intros idx Hne.
  destruct (decide (idx = i)) as [->|Hi]; [|by destruct Hne; apply Hother].
  destruct Hsame as [Heq|[? ?]]; [by rewrite Heq in Hne|done].
Qed.

Lemma only_touches_refl c (among : Z → Prop) s : only_touches c among s s.
Proof. unfold only_touches. by repeat split. Qed.

Lemma only_touches_trans c (I J : Z → Prop) s1 s2 s3 :
  only_touches c I s1 s2 → only_touches c J s2 s3 →
  only_touches c (λ idx, I idx ∨ J idx) s1 s3.
Proof.
  intros (F1 & F2 & F3 & F4 & F5 & F6 & HI) (G1 & G2 & G3 & G4 & G5 & G6 & HJ).
  unfold only_touches. repeat (split; [congruence|]).
  intros idx Hne.
  destruct (decide (pages s3 !! idx = pages s2 !! idx)) as [Heq|Hn].
  - rewrite Heq in Hne. destruct (HI idx Hne) as (? & ? & ?). auto.
  - destruct (HJ idx Hn) as (? & ? & ?). auto.
Qed.

Lemma only_touches_weaken c (I J : Z → Prop) s1 s2 :
  (∀ idx, I idx → J idx) → only_touches c I s1 s2 → only_touches c J s1 s2.
Proof.
  intros HIJ (F1 & F2 & F3 & F4 & F5 & F6 & HI).
  unfold only_touches. repeat (split; [done|]).
  intros idx Hne. destruct (HI idx Hne) as (? & ? & ?). auto.
Qed.

(** X13. [preloadPagesAround] writes the cache only: the document handle,
    the page count, the loading flag, the error and the console are left
    alone, and a slot whose content changed is one of [currentIndex],
    [currentIndex + 1], [currentIndex + 2], lies in [0, pageCount) of the
    closure and was not cached in the closure. *)
Theorem X13_preload_touches_three_slots_at_most
    (c : closure) (currentIndex : Z) (st : state) :
  only_touches c
    (λ idx, idx = currentIndex ∨ idx = currentIndex + 1 ∨ idx = currentIndex + 2)
    st (fst (preloadPagesAround c currentIndex st)).
Proof.
  unfold preloadPagesAround. destruct (pdfRef st) eqn:Hd; [|apply only_touches_refl].
  rewrite bind_fst.
  pose proof (only_touches_one c currentIndex st) as H1.
  destruct (preload_one c currentIndex st) as [s1 [[]|e]]; simpl in *.
  2:{ eapply only_touches_weaken; [|exact H1]. simpl. auto. }
  rewrite bind_fst.
  pose proof (only_touches_one c (currentIndex + 1) s1) as H2.
  destruct (preload_one c (currentIndex + 1) s1) as [s2 [[]|e]]; simpl in *.
  2:{ eapply only_touches_weaken; [|exact (only_touches_trans _ _ _ _ _ _ H1 H2)].
      simpl. intros idx [?|?]; auto. }
  pose proof (only_touches_one c (currentIndex + 2) s2) as H3.
  eapply only_touches_weaken;
    [|exact (only_touches_trans _ _ _ _ _ _ (only_touches_trans _ _ _ _ _ _ H1 H2) H3)].
  simpl. intros idx [[?|?]|?]; auto.
Qed.

(** A turn of the loop that completes normally on a slot it has to load has
    stored the half that belongs there. *)
Lemma preload_one_normal d c idx st st' :
  pdfRef st = Some d → preload_one c idx st = (st', Normal tt) →
  0 ≤ idx < c_pageCount c → c_pages c !! idx = None →
  ∃ img, half_of d idx = Some img ∧ pages st' !! idx = Some img.
Proof.
  intros Hd Hrun Hb Hc.
  destruct (page_canvas d (idx / 2 + 1)) as [[w h]|e] eqn:Hcv.
  - rewrite (preload_one_stores d c idx st w h) in Hrun by done.
    inversion Hrun; subst. simpl. rewrite lookup_insert_eq.
    unfold half_of. rewrite Hcv. eauto.
  - exfalso. revert Hrun. unfold preload_one.
    rewrite decide_False by lia. rewrite Hc.
    unfold mbind, M_bind, SPLIT_PAGES. cbv beta iota.
    by rewrite Hd, loadPageImage_split, Hcv.
Qed.

Lemma preload_one_keeps c i idx st :
  idx ≠ i → pages (fst (preload_one c i st)) !! idx = pages st !! idx.
Proof.
  intros Hne. destruct (preload_one_frame c i st) as (_ & _ & _ & _ & _ & _ & Hother & _).
  by apply Hother.
Qed.

Lemma preload_one_pdfRef c i st : pdfRef (fst (preload_one c i st)) = pdfRef st.
Proof. by destruct (preload_one_frame c i st) as (? & _). Qed.

(** X14. When [preloadPagesAround] completes normally with a document, each
    of the slots [currentIndex], [currentIndex + 1], [currentIndex + 2] that
    lies in [0, pageCount) of the closure and was not cached in the closure
    now holds its image: the left half of page [idx / 2 + 1] for an even
    slot, the right half for an odd one. *)
Theorem X14_normal_preload_fills_the_window
    (d : pdf) (c : closure) (currentIndex : Z) (st st' : state) :
  pdfRef st = Some d →
  preloadPagesAround c currentIndex st = (st', Normal tt) →
  ∀ idx,
    idx = currentIndex ∨ idx = currentIndex + 1 ∨ idx = currentIndex + 2 →
    0 ≤ idx < c_pageCount c → c_pages c !! idx = None →
    ∃ img, half_of d idx = Some img ∧ pages st' !! idx = Some img.
Proof.
  intros Hd Hrun idx Hidx Hb Hc.
  unfold preloadPagesAround in Hrun. rewrite Hd in Hrun.
  unfold mbind, M_bind in Hrun.
  destruct (preload_one c currentIndex st) as [s1 [[]|e]] eqn:H1; [|done].
  destruct (preload_one c (currentIndex + 1) s1) as [s2 [[]|e]] eqn:H2; [|done].
  assert (Hd1 : pdfRef s1 = Some d).
  { pose proof (preload_one_pdfRef c currentIndex st) as Hp. rewrite H1 in Hp.
    simpl in Hp. congruence. }
  assert (Hd2 : pdfRef s2 = Some d).
  { pose proof (preload_one_pdfRef c (currentIndex + 1) s1) as Hp. rewrite H2 in Hp.
    simpl in Hp. congruence. }
  assert (K2 : ∀ j, j ≠ currentIndex + 1 → pages s2 !! j = pages s1 !! j).
  { intros j Hj. pose proof (preload_one_keeps c (currentIndex + 1) j s1 Hj) as Hk.
    by rewrite H2 in Hk. }
  assert (K3 : ∀ j, j ≠ currentIndex + 2 → pages st' !! j = pages s2 !! j).
  { intros j Hj. pose proof (preload_one_keeps c (currentIndex + 2) j s2 Hj) as Hk.
    by rewrite Hrun in Hk. }
  destruct Hidx as [-> | [-> | ->]].
  - destruct (preload_one_normal d c currentIndex st s1 Hd H1 Hb Hc) as (img & Hh & Hp).
    exists img. split; [done|]. rewrite K3, K2 by lia. done.
  - destruct (preload_one_normal d c (currentIndex + 1) s1 s2 Hd1 H2 Hb Hc)
      as (img & Hh & Hp).
    exists img. split; [done|]. rewrite K3 by lia. done.
  - by apply (preload_one_normal d c (currentIndex + 2) s2 st' Hd2 Hrun).
Qed.

Lemma X14_normal_preload_fills_the_window_witness :
  ∃ img, half_of doc3 1 = Some img ∧
         pages (fst (preloadPagesAround {| c_pageCount := 6; c_pages := ∅ |} 0
                       (set_pdfRef (Some doc3) mount))) !! 1 = Some img.
Proof.
  apply (X14_normal_preload_fills_the_window doc3 {| c_pageCount := 6; c_pages := ∅ |} 0
           (set_pdfRef (Some doc3) mount)
           (fst (preloadPagesAround {| c_pageCount := 6; c_pages := ∅ |} 0
                   (set_pdfRef (Some doc3) mount)))).
  - reflexivity.
  - reflexivity.
  - right. left. reflexivity.
  - simpl. lia.
  - reflexivity.
Defined.

(** X15. A page that fails to render stops the preload and, inside [init],
    is fatal: when the slot [currentIndex] has to be loaded and its page
    throws, [preloadPagesAround] throws the same error with the state
    untouched (the later slots are not tried); and [init], run from a
    closure for which slot 0 has to be loaded while page 1 fails, ends in
    the error state with the message of that error, the cache as it was,
    and [loading] false. *)
Theorem X15_failed_page_stops_the_preload
    (d : pdf) (c : closure) (currentIndex : Z) (e : string) (st : state) :
  0 ≤ currentIndex < c_pageCount c → c_pages c !! currentIndex = None →
  page_canvas d (currentIndex / 2 + 1) = Throw e →
  (pdfRef st = Some d → preloadPagesAround c currentIndex st = (st, Throw e)) ∧
  (currentIndex = 0 →
     let st' := init c false (Opened d) st in
     error st' = Some (if truthy e then e else "Failed to load PDF"%string) ∧
     loading st' = false ∧ pages st' = pages st ∧
     pdfRef st' = Some d ∧ pageCount st' = numPages d * 2 ∧
     console st' = console st ++ [e]).
Proof.
  intros Hb Hc Hcv.
  assert (Hone : ∀ s, pdfRef s = Some d → preload_one c currentIndex s = (s, Throw e)).
  { intros s Hs. unfold preload_one. rewrite decide_False by lia. rewrite Hc.
    unfold mbind, M_bind, SPLIT_PAGES. cbv beta iota.
    by rewrite Hs, loadPageImage_split, Hcv. }
  assert (Hpre : ∀ s, pdfRef s = Some d → preloadPagesAround c currentIndex s = (s, Throw e)).
  { intros s Hs. unfold preloadPagesAround. rewrite Hs.
    unfold mbind, M_bind. by rewrite (Hone s Hs). }
  split; [apply Hpre|].
  intros -> st'. unfold st', init, try_catch.
  unfold mbind, M_bind, mret, M_ret, modify. simpl.
  rewrite (Hpre (set_pageCount (numPages d * 2) (set_pdfRef (Some d) st)) eq_refl).
  simpl. done.
Qed.

Lemma X15_failed_page_stops_the_preload_witness :
  error (init {| c_pageCount := 6; c_pages := ∅ |} false
           (Opened {| numPages := 3; page_canvas := λ _, Throw "corrupt" |}) mount)
    = Some (if truthy "corrupt" then "corrupt" else "Failed to load PDF")%string.
Proof.
  apply (X15_failed_page_stops_the_preload
           {| numPages := 3; page_canvas := λ _, Throw "corrupt" |}
           {| c_pageCount := 6; c_pages := ∅ |} 0 "corrupt" mount).
  - simpl. lia.
  - reflexivity.
  - reflexivity.
  - reflexivity.
Defined.

(** ** init *)

(** X16. [init] from a closure whose [pageCount] is 0, as the one of the
    first render is, loads no page: it stores the document and twice its
    page count, clears [loading], and leaves the cache and the error as
    they were, so the book appears with every slot still empty. *)
Theorem X16_first_init_loads_no_page
    (d : pdf) (c : closure) (cancelled : bool) (st : state) :
  c_pageCount c ≤ 0 →
  init c cancelled (Opened d) st =
    set_loading false (set_pageCount (numPages d * 2) (set_pdfRef (Some d) st)).
Proof.
  intros Hpc.
  assert (Hone : ∀ i s, preload_one c i s = (s, Normal tt)).
  { intros i s. unfold preload_one. rewrite decide_True by lia. done. }
  unfold init, try_catch, preloadPagesAround.
  unfold mbind, M_bind, mret, M_ret, modify. simpl.
  by rewrite !Hone.
Qed.

Lemma X16_first_init_loads_no_page_witness :
  init (closure_of mount) false (Opened doc3) mount =
    set_loading false (set_pageCount (numPages doc3 * 2) (set_pdfRef (Some doc3) mount)).
Proof.
  apply (X16_first_init_loads_no_page doc3 (closure_of mount) false mount). simpl. lia.
Defined.

(** ** goToPage *)

(** X19. With the flip book mounted, [goToPage] always navigates, and the
    target it picks is monotone in the page number; asking for the page of
    the target again (target + 1) gives the same target when the book has a
    page; and a book without pages sends every number to index 0. *)
Theorem X19_goToPage_is_monotone_and_stable (pageNumber : Qc) (st : state) :
  bookRef st = true →
  ∃ target,
    goToPage pageNumber st = Some target ∧
    (∀ m target', (pageNumber ≤ m)%Qc → goToPage m st = Some target' →
                  (target ≤ target')%Qc) ∧
    (0 < pageCount st → goToPage (target + 1)%Qc st = Some target) ∧
    (pageCount st ≤ 0 → target = 0%Qc).
Proof.
  intros Href. unfold goToPage. rewrite Href.
  eexists. split; [reflexivity|].
  split; [|split].
  - intros m t' Hm Ht'. inversion Ht'; subst. apply clamp_mono. by apply Qc_pred_le.
  - intros Hpc. f_equal.
    assert (Hlh : (0 ≤ Qc_of_Z (pageCount st - 1))%Qc).
    { rewrite <- Z2Qc_inj_0. apply Z2Qc_le. lia. }
    destruct (clamp_spec 0%Qc (Qc_of_Z (pageCount st - 1)) (pageNumber - 1)%Qc Hlh)
      as (Hrange & _).
    set (t := Math_max _ _) in *.
    replace (t + 1 - 1)%Qc with t by ring.
    by apply (clamp_spec 0%Qc (Qc_of_Z (pageCount st - 1)) t Hlh).
  - intros Hpc.
    assert (Hneg : (Qc_of_Z (pageCount st - 1) ≤ 0)%Qc).
    { rewrite <- Z2Qc_inj_0. apply Z2Qc_le. lia. }
    unfold Math_max, Math_min. repeat case_decide; try done.
    + by apply (anti_symm Qcle).
    + exfalso. apply H0. by etrans.
Qed.

Lemma X19_goToPage_is_monotone_and_stable_witness :
  ∃ target,
    goToPage (Qc_of_Z 99) six_slots = Some target ∧
    (∀ m target', (Qc_of_Z 99 ≤ m)%Qc → goToPage m six_slots = Some target' →
                  (target ≤ target')%Qc) ∧
    (0 < pageCount six_slots → goToPage (target + 1)%Qc six_slots = Some target) ∧
    (pageCount six_slots ≤ 0 → target = 0%Qc).
Proof. apply (X19_goToPage_is_monotone_and_stable (Qc_of_Z 99) six_slots). reflexivity. Defined.

(** ** The keyboard *)

Lemma press_unmounted burst fl : press false burst fl = fl.
Proof. revert fl. induction burst as [|key burst IH]; intros fl; [done|]. apply IH. Qed.

Lemma press_mounted burst fl :
  press true burst fl =
    fl ++ ((λ key, if decide (key = "ArrowRight"%string) then flipNext else flipPrev)
             <$> filter is_arrow burst).
Proof.
  revert fl. induction burst as [|key burst IH]; intros fl; [by rewrite app_nil_r|].
  unfold press in *. simpl. rewrite IH. unfold handleKey. rewrite filter_cons.
  destruct (decide (is_arrow key)) as [[-> | ->]|Ha].
  - simpl. by rewrite <- app_assoc.
  - simpl. by rewrite <- app_assoc.
  - rewrite (decide_False (P := key = "ArrowRight"%string))
      by (intros ->; apply Ha; by left).
    rewrite (decide_False (P := key = "ArrowLeft"%string))
      by (intros ->; apply Ha; by right).
    by rewrite !app_nil_r.
Qed.

(** X20. This variant does not debounce: with the flip book mounted every
    ArrowRight or ArrowLeft press flips at once, so a burst makes as many
    flips as it has arrow keys, in order, and other keys make none; without
    the flip book a burst does nothing. *)
Theorem X20_every_arrow_key_flips (burst : list string) (flips : list flip) :
  press false burst flips = flips ∧
  press true burst flips =
    flips ++ ((λ key, if decide (key = "ArrowRight"%string) then flipNext else flipPrev)
                <$> filter is_arrow burst) ∧
  length (press true burst flips) = (length flips + length (filter is_arrow burst))%nat.
Proof.
  split; [apply press_unmounted|]. split; [apply press_mounted|].
  by rewrite press_mounted, length_app, length_fmap.
Qed.

End Book_More.
